(** * Ayaka-Core: tiered cache and relevance-ranked memory retrieval

    A shallow embedding of [ai_companion/services/cache_service.py] and
    [ai_companion/memory/memory_manager.py] (with the parts of
    [chat_history_manager.py] the retriever calls), followed by the
    properties of the specification that were checked against it.

    Conventions of the embedding:
    - Python [dict]s whose iteration order is observable (the memory tier,
      JSON payloads) are association lists with unique keys, a new key
      going to the end and an overwritten key keeping its place;
    - the SQLite table is a finite map from the primary key to a row;
    - clock readings ([time.time()], [datetime.now().timestamp()]) are
      explicit arguments, one per reading, as integers (clock ticks);
    - a [try/except] around database work is a boolean saying whether the
      block ran to its end; a block that raises leaves the table unchanged
      (the connection context manager rolls back).  [delete], which sets
      its flag inside the block, also tells where the block raised;
    - a [string] holds a text in UTF-8.  Substring tests and counts
      ([in], [str.count]) are made on that form, where an occurrence of
      one well-formed text in another starts at a character boundary;
      [str.lower], [str.split] and [len], which depend on the character
      tables of the interpreter, are parameters of the embedding. *)

From Stdlib Require Import ZArith Ascii String List Permutation Sorted Lia.
From stdpp Require Import base decidable option list sorting gmap strings pretty.

Local Open Scope Z_scope.
Set Warnings "-register-all,-clear-no-such-hyp".

(** ** Python built-ins used by the two modules *)

Module Py.


(** [sub in s] *)
Fixpoint contains (sub s : string) : bool :=
  String.prefix sub s ||
  match s with
  | EmptyString => false
  | String _ s' => contains sub s'
  end.

(** [s.count(sub)]: occurrences found left to right without overlap.
    [skip] is the number of characters still covered by the last
    occurrence. *)
Fixpoint count_from (skip : nat) (sub s : string) {struct s} : nat :=
  match s with
  | EmptyString =>
      match skip with
      | O => if String.prefix sub EmptyString then 1%nat else 0%nat
      | S _ => 0%nat
      end
  | String _ s' =>
      match skip with
      | S k => count_from k sub s'
      | O =>
          if String.prefix sub s
          then S (count_from (String.length sub - 1) sub s')
          else count_from 0 sub s'
      end
  end.

Definition count (s sub : string) : Z := Z.of_nat (count_from 0 sub s).

(** [l[:n]] for an integer [n] of either sign. *)
Definition slice_to {A} (n : Z) (l : list A) : list A :=
  if 0 <=? n then take (Z.to_nat n) l
  else take (length l - Z.to_nat (- n)) l.

(** [l[-n:]] for [n > 0]. *)
Definition slice_last {A} (n : Z) (l : list A) : list A :=
  drop (length l - Z.to_nat n) l.

(** [sorted] and [list.sort] are stable.  [before x y] says that [x] may
    stand before [y]: [key x <= key y], or [key y <= key x] under
    [reverse=True].  An element is inserted in front of the first one it
    may stand before, so equal keys keep their order. *)
Section StableSort.
Context {A : Type} (before : A → A → bool).

Fixpoint insert_sorted (x : A) (l : list A) : list A :=
  match l with
  | [] => [x]
  | y :: l' => if before x y then x :: l else y :: insert_sorted x l'
  end.

Definition sorted (l : list A) : list A := foldr insert_sorted [] l.
End StableSort.

(** [sep.join(ls)] *)
Fixpoint join (sep : string) (ls : list string) : string :=
  match ls with
  | [] => EmptyString
  | [x] => x
  | x :: rest => x +:+ sep +:+ join sep rest
  end.

(** Ordered dictionaries. *)
Section Dict.
Context {A : Type}.

Fixpoint dict_get (k : string) (d : list (string * A)) : option A :=
  match d with
  | [] => None
  | (k', v) :: d' => if decide (k' = k) then Some v else dict_get k d'
  end.

(** [d[k] = v] *)
Fixpoint dict_set (k : string) (v : A) (d : list (string * A))
  : list (string * A) :=
  match d with
  | [] => [(k, v)]
  | (k', v') :: d' =>
      if decide (k' = k) then (k, v) :: d' else (k', v') :: dict_set k v d'
  end.

(** [del d[k]] for a key that is present; for an absent key Python raises
    [KeyError], which every use below rules out. *)
Definition dict_del (k : string) (d : list (string * A))
  : list (string * A) :=
  filter (λ kv, kv.1 ≠ k) d.

Definition dict_wf (d : list (string * A)) : Prop := NoDup (d.*1).
End Dict.

End Py.

(** ** JSON payloads and [json.dumps] *)

(** The values this code caches and hashes: [None], booleans, integers,
    strings, lists and string-keyed dictionaries (in insertion order). *)
Inductive json : Type :=
| JNull
| JBool (b : bool)
| JInt (n : Z)
| JStr (s : string)
| JList (l : list json)
| JDict (d : list (string * json)).

Module Json.

Definition dquote : ascii := "034"%char.

Definition hex_digit (n : N) : ascii :=
  if (n <? 10)%N then ascii_of_N (48 + n) else ascii_of_N (87 + n).

(** The escape table of [json.encoder] under [ensure_ascii=False]. *)
Definition escape_char (c : ascii) : string :=
  let n := N_of_ascii c in
  if (n =? 92)%N then "\\"
  else if (n =? 34)%N then String "\"%char (String dquote EmptyString)
  else if (n =? 8)%N then "\b"
  else if (n =? 12)%N then "\f"
  else if (n =? 10)%N then "\n"
  else if (n =? 13)%N then "\r"
  else if (n =? 9)%N then "\t"
  else if (n <? 32)%N then
    "\u00" +:+ String (hex_digit (n / 16)) (String (hex_digit (n mod 16)) EmptyString)
  else String c EmptyString.

Fixpoint escape (s : string) : string :=
  match s with
  | EmptyString => EmptyString
  | String c s' => escape_char c +:+ escape s'
  end.

Definition encode_basestring (s : string) : string :=
  String dquote (escape s +:+ String dquote EmptyString).

(** Items of a dictionary are ordered by key under [sort_keys=True]. *)
Definition key_le {A} (a b : string * A) : bool := String.leb a.1 b.1.

Definition dumps_item (kv : string * string) : string :=
  encode_basestring kv.1 +:+ ": " +:+ kv.2.

(** [json.dumps(j, sort_keys=sort_keys, ensure_ascii=False)] with the
    default separators.  A dictionary's values are rendered first and the
    rendered items ordered afterwards, which gives the same text as
    ordering first because the order looks at keys only. *)
Fixpoint dumps (sort_keys : bool) (j : json) : string :=
  match j with
  | JNull => "null"
  | JBool true => "true"
  | JBool false => "false"
  | JInt n => pretty n
  | JStr s => encode_basestring s
  | JList l => "[" +:+ Py.join ", " (map (dumps sort_keys) l) +:+ "]"
  | JDict d =>
      let items := map (λ '(k, v), (k, dumps sort_keys v)) d in
      let items := if sort_keys then Py.sorted key_le items else items in
      "{" +:+ Py.join ", " (map dumps_item items) +:+ "}"
  end.

(** The canonical form of a payload: every dictionary in key order. *)
Fixpoint canonical (j : json) : json :=
  match j with
  | JList l => JList (map canonical l)
  | JDict d => JDict (Py.sorted key_le (map (λ '(k, v), (k, canonical v)) d))
  | _ => j
  end.

(** Structural equality of payloads: the same shape and leaves, with the
    items of a dictionary in any order. *)
Inductive equal : json → json → Prop :=
| equal_null : equal JNull JNull
| equal_bool b : equal (JBool b) (JBool b)
| equal_int n : equal (JInt n) (JInt n)
| equal_str s : equal (JStr s) (JStr s)
| equal_list l1 l2 :
    Forall2 equal l1 l2 → equal (JList l1) (JList l2)
| equal_dict d1 d1' d2 :
    d1 ≡ₚ d1' →
    Forall2 (λ a b, a.1 = b.1 ∧ equal a.2 b.2) d1' d2 →
    equal (JDict d1) (JDict d2).

(** A Python dictionary holds each key once, at every depth. *)
Inductive wf : json → Prop :=
| wf_null : wf JNull
| wf_bool b : wf (JBool b)
| wf_int n : wf (JInt n)
| wf_str s : wf (JStr s)
| wf_list l : Forall wf l → wf (JList l)
| wf_dict d : NoDup (d.*1) → Forall (λ kv, wf kv.2) d → wf (JDict d).

(** Every dictionary lists its keys in ascending order, at every depth. *)
Inductive keys_sorted : json → Prop :=
| keys_sorted_null : keys_sorted JNull
| keys_sorted_bool b : keys_sorted (JBool b)
| keys_sorted_int n : keys_sorted (JInt n)
| keys_sorted_str s : keys_sorted (JStr s)
| keys_sorted_list l : Forall keys_sorted l → keys_sorted (JList l)
| keys_sorted_dict d :
    StronglySorted (λ a b : string * json, key_le a b = true) d →
    Forall (λ kv, keys_sorted kv.2) d →
    keys_sorted (JDict d).

End Json.

(** ** What the interpreter and its libraries supply *)

(** [json.loads] (which raises on malformed text), [len(str(v))],
    [hashlib.md5(...).hexdigest()], the built-in [hash], and the string
    methods [s.lower()], [s.split()] and [len(s)] are library code; the
    embedding is parametric in them. *)
Class Runtime := {
  json_loads : string → option json;
  py_str_len : json → Z;
  md5_hexdigest : string → string;
  py_hash : string → Z;
  str_lower : string → string;
  str_split : string → list string;
  str_len : string → Z;
}.

(** ** [cache_service.py] *)

Module CacheService.

(** [@dataclass CacheEntry] *)
Record CacheEntry := {
  key : string;
  value : json;
  ttl : Z;
  created_at : Z;
  access_count : Z;
  last_accessed : Z;
}.

(** A row of the table [cache]; [key] is the primary key of the map. *)
Record Row := {
  row_value : string;
  row_ttl : Z;
  row_created_at : Z;
  row_access_count : Z;
  row_last_accessed : Z;
}.

(** The fields of a [CacheService] object the operations read or write. *)
Record t := {
  _memory_cache : list (string * CacheEntry);
  max_memory_entries : Z;
  db : gmap string Row;
}.

Definition with_memory (self : t) (m : list (string * CacheEntry)) : t :=
  {| _memory_cache := m;
     max_memory_entries := max_memory_entries self;
     db := db self |}.

Definition with_db (self : t) (d : gmap string Row) : t :=
  {| _memory_cache := _memory_cache self;
     max_memory_entries := max_memory_entries self;
     db := d |}.

(** [CacheService(max_memory_entries=n)] on a fresh cache directory. *)
Definition init (n : Z) : t :=
  {| _memory_cache := []; max_memory_entries := n; db := ∅ |}.

(** The liveness test, [current_time - created_at < ttl]. *)
Definition live (current_time : Z) (e : CacheEntry) : Prop :=
  current_time - created_at e < ttl e.

Definition expired (current_time : Z) (e : CacheEntry) : Prop :=
  ttl e <= current_time - created_at e.

#[global] Instance live_dec now e : Decision (live now e).
Proof. unfold live. apply _. Defined.

#[global] Instance expired_dec now e : Decision (expired now e).
Proof. unfold expired. apply _. Defined.

Section WithRuntime.
Context `{Runtime}.

Definition _generate_key (prefix : string) (data : json) : string :=
  prefix +:+ ":" +:+ md5_hexdigest (Json.dumps true data).

(** The list [keys_to_delete] that [_cleanup_memory_cache] builds, with
    the function's own clock reading. *)
Definition keys_to_delete (self : t) (current_time : Z) : list string :=
  let items := _memory_cache self in
  let keys_to_delete :=
    (filter (λ kv, expired current_time kv.2) items).*1 in
  if decide (max_memory_entries self
             < Z.of_nat (length items) - Z.of_nat (length keys_to_delete))
  then
    let sorted_entries :=
      Py.sorted (λ x y : string * Z, x.2 <=? y.2)
        (map (λ kv : string * CacheEntry, (kv.1, last_accessed kv.2))
           (filter (λ kv, kv.1 ∉ keys_to_delete) items)) in
    let excess_count :=
      Z.of_nat (length items) - Z.of_nat (length keys_to_delete)
      - max_memory_entries self in
    keys_to_delete ++ (Py.slice_to excess_count sorted_entries).*1
  else keys_to_delete.

(** [_cleanup_memory_cache]: the deletion loop over that list. *)
Definition _cleanup_memory_cache (self : t) (current_time : Z) : t :=
  with_memory self
    (foldl (λ m k, Py.dict_del k m) (_memory_cache self)
       (keys_to_delete self current_time)).

(** [set].  [current_time] is the reading taken on entry, [cleanup_time]
    the one taken inside [_cleanup_memory_cache]; [io_ok] says whether the
    persistent write went through. *)
Definition set (self : t) (key : string) (value : json) (ttl : Z)
    (persist : bool) (current_time cleanup_time : Z) (io_ok : bool) : t :=
  let entry :=
    {| key := key; value := value; ttl := ttl; created_at := current_time;
       access_count := 0; last_accessed := current_time |} in
  let self := with_memory self (Py.dict_set key entry (_memory_cache self)) in
  let self := _cleanup_memory_cache self cleanup_time in
  if persist && io_ok then
    with_db self
      (<[key := {| row_value := Json.dumps false value;
                   row_ttl := ttl;
                   row_created_at := current_time;
                   row_access_count := 0;
                   row_last_accessed := current_time |}]> (db self))
  else self.

(** The memory-tier part of [get]: a live entry is touched and served, an
    expired one is deleted. *)
Definition get_memory (self : t) (key : string) (current_time : Z)
  : option json * t :=
  match Py.dict_get key (_memory_cache self) with
  | Some entry =>
      if decide (live current_time entry) then
        let entry :=
          {| CacheService.key := CacheService.key entry;
             value := value entry; ttl := ttl entry;
             created_at := created_at entry;
             access_count := access_count entry + 1;
             last_accessed := current_time |} in
        (Some (value entry),
         with_memory self (Py.dict_set key entry (_memory_cache self)))
      else
        (None, with_memory self (Py.dict_del key (_memory_cache self)))
  | None => (None, self)
  end.

(** The persistent-tier part of [get].  The block gives up without effect
    when the database cannot be used or the stored text does not parse. *)
Definition get_persistent (self : t) (key : string) (current_time : Z)
    (io_ok : bool) : option json * t :=
  if io_ok then
    match db self !! key with
    | Some row =>
        if decide (current_time - row_created_at row < row_ttl row) then
          match json_loads (row_value row) with
          | Some parsed_value =>
              let row' :=
                {| row_value := row_value row; row_ttl := row_ttl row;
                   row_created_at := row_created_at row;
                   row_access_count := row_access_count row + 1;
                   row_last_accessed := current_time |} in
              let entry :=
                {| key := key; value := parsed_value; ttl := row_ttl row;
                   created_at := row_created_at row;
                   access_count := 0; last_accessed := current_time |} in
              (Some parsed_value,
               {| _memory_cache := Py.dict_set key entry (_memory_cache self);
                  max_memory_entries := max_memory_entries self;
                  db := <[key := row']> (db self) |})
          | None => (None, self)
          end
        else (None, with_db self (delete key (db self)))
    | None => (None, self)
    end
  else (None, self).

(** [get]: [None] stands for Python's [None] result. *)
Definition get (self : t) (key : string) (current_time : Z) (io_ok : bool)
  : option json * t :=
  match get_memory self key current_time with
  | (Some v, self) => (Some v, self)
  | (None, self) => get_persistent self key current_time io_ok
  end.

(** The result of [get_stats].  [persistent_cache] is [None] for the empty
    dictionary left by a failed query; the average of [last_accessed] is
    kept as the sum it is taken from. *)
Record PersistentStats := {
  entries : Z;
  total_accesses : Z;
  sum_last_accessed : Z;
}.

Record Stats := {
  memory_entries : Z;
  size_bytes : Z;
  max_entries : Z;
  persistent_cache : option PersistentStats;
}.

Definition get_stats (self : t) (io_ok : bool) : Stats :=
  {| memory_entries := Z.of_nat (length (_memory_cache self));
     size_bytes :=
       foldr Z.add 0 (map (λ kv, py_str_len (value kv.2)) (_memory_cache self));
     max_entries := max_memory_entries self;
     persistent_cache :=
       if io_ok then
         Some {| entries := Z.of_nat (size (db self));
                 total_accesses :=
                   map_fold (λ _ r acc, row_access_count r + acc) 0 (db self);
                 sum_last_accessed :=
                   map_fold (λ _ r acc, row_last_accessed r + acc) 0 (db self) |}
       else None |}.

End WithRuntime.

End CacheService.

(** ** [chat_history_manager.py], as far as the retriever calls it *)

(** A message dictionary, read through [msg.get('role', 'unknown')] and
    [msg.get('content', '')] only. *)
Record Message := {
  role : option string;
  content : option string;
}.

Module ChatHistoryManager.

(** [current_session], and the history directory as the list of its
    [session_*.json] files, newest name first, each with the messages
    [load_history_file] reads from it.  [calls] counts the calls made to
    the object. *)
Record t := {
  current_session : list Message;
  history_dir : list (string * list Message);
  calls : nat;
}.

Definition called (self : t) : t :=
  {| current_session := current_session self;
     history_dir := history_dir self;
     calls := S (calls self) |}.

Definition get_session_messages (self : t) (limit : Z) : list Message * t :=
  (if decide (0 < limit) then Py.slice_last limit (current_session self)
   else current_session self,
   called self).

Fixpoint get_history_files_loop (paths : list string) (files : list string)
    (limit : Z) : list string :=
  match paths with
  | [] => files
  | file_path :: paths' =>
      let files := files ++ [file_path] in
      if decide (limit <= Z.of_nat (length files)) then files
      else get_history_files_loop paths' files limit
  end.

Definition get_history_files (self : t) (limit : Z) : list string * t :=
  (get_history_files_loop (history_dir self).*1 [] limit, called self).

Definition load_history_file (self : t) (file_path : string)
  : list Message * t :=
  (default [] (Py.dict_get file_path (history_dir self)), called self).

End ChatHistoryManager.

(** ** [memory_manager.py] *)

Module MemoryManager.

(** A cached result, [{'memories': ..., 'timestamp': ...}]. *)
Record CacheData := {
  memories : list string;
  timestamp : Z;
}.

Record t := {
  chat_history_manager : ChatHistoryManager.t;
  memory_cache : gmap string CacheData;
  cache_expiry : Z;
}.

Definition init (chm : ChatHistoryManager.t) : t :=
  {| chat_history_manager := chm; memory_cache := ∅; cache_expiry := 3600 |}.

Definition with_history (self : t) (chm : ChatHistoryManager.t) : t :=
  {| chat_history_manager := chm;
     memory_cache := memory_cache self;
     cache_expiry := cache_expiry self |}.

Section WithRuntime.
Context `{Runtime}.

(** [any(word in content for word in query_lower.split() if len(word) > 2)] *)
Definition mentions (query_lower content : string) : bool :=
  existsb (λ word, Py.contains word content)
    (filter (λ word, 2 < str_len word) (str_split query_lower)).

(** [f"[{msg.get('role', 'unknown')}] {msg.get('content', '')}"] *)
Definition render (msg : Message) : string :=
  "[" +:+ default "unknown" (role msg) +:+ "] "
  +:+ default EmptyString (content msg).

Definition msg_matches (query : string) (msg : Message) : bool :=
  mentions (str_lower query) (str_lower (default EmptyString (content msg))).

Definition _extract_current_session_memories (self : t) (query : string)
    (limit : Z) : list string * t :=
  let '(messages, chm) :=
    ChatHistoryManager.get_session_messages (chat_history_manager self) 50 in
  let memories :=
    map render (List.filter (msg_matches query) messages) in
  (Py.slice_to limit memories, with_history self chm).

(** The inner loop of [_extract_historical_memories], leaving at the
    [break]. *)
Fixpoint scan_messages (query : string) (limit : Z) (messages : list Message)
    (memories : list string) : list string :=
  match messages with
  | [] => memories
  | msg :: rest =>
      if msg_matches query msg then
        let memories := memories ++ [render msg] in
        if decide (limit <= Z.of_nat (length memories)) then memories
        else scan_messages query limit rest memories
      else scan_messages query limit rest memories
  end.

(** The outer loop, over the files. *)
Fixpoint scan_files (query : string) (limit : Z) (files : list string)
    (chm : ChatHistoryManager.t) (memories : list string)
  : list string * ChatHistoryManager.t :=
  match files with
  | [] => (memories, chm)
  | file_path :: rest =>
      let '(messages, chm) := ChatHistoryManager.load_history_file chm file_path in
      let memories := scan_messages query limit messages memories in
      if decide (limit <= Z.of_nat (length memories)) then (memories, chm)
      else scan_files query limit rest chm memories
  end.

Definition _extract_historical_memories (self : t) (query : string)
    (limit : Z) : list string * t :=
  let '(files, chm) :=
    ChatHistoryManager.get_history_files (chat_history_manager self) 10 in
  let '(memories, chm) := scan_files query limit files chm [] in
  (Py.slice_to limit memories, with_history self chm).

(** [set(query.lower().split())]: the distinct words.  The order in which a
    set is walked does not show in a sum. *)
Definition query_words (query : string) : list string :=
  remove_dups (str_split (str_lower query)).

(** The score the loop of [_rank_memories_by_relevance] accumulates. *)
Definition score (query memory : string) : Z :=
  let memory_lower := str_lower memory in
  foldl (λ score word,
           if decide (2 < str_len word)
           then score + Py.count memory_lower word * str_len word
           else score)
    0 (query_words query).

Definition _rank_memories_by_relevance (memories : list string)
    (query : string) : list string :=
  let scored_memories := map (λ memory, (memory, score query memory)) memories in
  let scored_memories :=
    Py.sorted (λ x y : string * Z, y.2 <=? x.2) scored_memories in
  (filter (λ ms : string * Z, 0 < ms.2) scored_memories).*1.

(** [f"memories_{hash(query)}_{limit}"] *)
Definition cache_key (query : string) (limit : Z) : string :=
  "memories_" +:+ pretty (py_hash query) +:+ "_" +:+ pretty limit.

(** The body of [get_relevant_memories] after a cache miss; [now] is the
    clock reading stored with the result. *)
Definition compute_relevant_memories (self : t) (query : string) (limit : Z)
    (now : Z) : list string * t :=
  let '(current_memories, self) :=
    _extract_current_session_memories self query (limit `div` 2) in
  let '(historical_memories, self) :=
    _extract_historical_memories self query (limit `div` 2) in
  let all_memories := current_memories ++ historical_memories in
  let relevant_memories :=
    Py.slice_to limit (_rank_memories_by_relevance all_memories query) in
  (relevant_memories,
   {| chat_history_manager := chat_history_manager self;
      memory_cache :=
        <[cache_key query limit :=
            {| memories := relevant_memories; timestamp := now |}]>
          (memory_cache self);
      cache_expiry := cache_expiry self |}).

(** [get_relevant_memories]; [now_check] is the clock reading compared
    with a cached timestamp, [now_store] the one stored with a new result. *)
Definition get_relevant_memories (self : t) (query : string) (limit : Z)
    (now_check now_store : Z) : list string * t :=
  match memory_cache self !! cache_key query limit with
  | Some cache_data =>
      if decide (now_check - timestamp cache_data < cache_expiry self)
      then (memories cache_data, self)
      else compute_relevant_memories self query limit now_store
  | None => compute_relevant_memories self query limit now_store
  end.

End WithRuntime.

End MemoryManager.

(** ** The objects [web/app.py] wires together *)

Module WebApp.

Record t := {
  cache_service : CacheService.t;
  memory_manager : MemoryManager.t;
}.

(** [initialize_components]: [CacheService()] with its default capacity and
    [MemoryManager(chat_history_manager)]. *)
Definition init (chm : ChatHistoryManager.t) : t :=
  {| cache_service := CacheService.init 1000;
     memory_manager := MemoryManager.init chm |}.

Section WithRuntime.
Context `{Runtime}.

(** [web_app.memory_manager.get_relevant_memories(query, limit)] *)
Definition get_relevant_memories (app : t) (query : string) (limit : Z)
    (now_check now_store : Z) : list string * t :=
  let '(memories, mm) :=
    MemoryManager.get_relevant_memories (memory_manager app) query limit
      now_check now_store in
  (memories, {| cache_service := cache_service app; memory_manager := mm |}).

End WithRuntime.

End WebApp.

(** ** Notions used in the statements *)

(** The items of the memory tier that pass the liveness test. *)
Definition survivors (current_time : Z)
    (items : list (string * CacheService.CacheEntry))
  : list (string * CacheService.CacheEntry) :=
  filter (λ kv, CacheService.live current_time kv.2) items.

(** The entry [set] writes. *)
Definition written (key : string) (value : json) (ttl current_time : Z)
  : CacheService.CacheEntry :=
  {| CacheService.key := key; CacheService.value := value;
     CacheService.ttl := ttl; CacheService.created_at := current_time;
     CacheService.access_count := 0;
     CacheService.last_accessed := current_time |}.

(** The order of [sorted_entries] and the list it is computed from. *)
Definition by_last_accessed (x y : string * Z) : bool := x.2 <=? y.2.

Definition access_times (items : list (string * CacheService.CacheEntry))
  : list (string * Z) :=
  map (λ kv : string * CacheService.CacheEntry,
         (kv.1, CacheService.last_accessed kv.2)) items.

(** The keys the second phase of the sweep adds to [keys_to_delete]. *)
Definition lru_keys (max : Z)
    (items : list (string * CacheService.CacheEntry)) : list string :=
  if decide (max < Z.of_nat (length items)) then
    (Py.slice_to (Z.of_nat (length items) - max)
       (Py.sorted by_last_accessed (access_times items))).*1
  else [].

(** The score in the words of the specification: the sum, over the
    distinct query words longer than two characters that occur in the
    fragment, of occurrences times length. *)
Definition matching_words `{Runtime} (query memory : string) : list string :=
  filter (λ w, 2 < str_len w ∧ Py.contains w (str_lower memory) = true)
    (MemoryManager.query_words query).

Definition spec_score `{Runtime} (query memory : string) : Z :=
  foldr Z.add 0
    (map (λ w, Py.count (str_lower memory) w * str_len w)
       (matching_words query memory)).

(** No result cached for a limit of zero or one holds a fragment. *)
Definition small_limits_empty `{Runtime} (self : MemoryManager.t) : Prop :=
  ∀ query limit cache_data,
    0 <= limit <= 1 →
    MemoryManager.memory_cache self !! MemoryManager.cache_key query limit
    = Some cache_data →
    MemoryManager.memories cache_data = [].

(** Texts without the separator of the retriever's cache keys. *)
Fixpoint no_underscore (s : string) : Prop :=
  match s with
  | EmptyString => True
  | String c s' => c ≠ "_"%char ∧ no_underscore s'
  end.

(** ** A concrete runtime *)

(** The string methods on ASCII text, where [str.lower] folds [A-Z],
    [str.split()] cuts at the six whitespace characters and the four
    separators, and [len] counts bytes. *)
Module AsciiStr.

Definition is_ascii_char (c : ascii) : bool := (N_of_ascii c <? 128)%N.

Fixpoint is_ascii (s : string) : bool :=
  match s with
  | EmptyString => true
  | String c s' => is_ascii_char c && is_ascii s'
  end.

Definition lower_ascii (c : ascii) : ascii :=
  let n := N_of_ascii c in
  if ((65 <=? n) && (n <=? 90))%N then ascii_of_N (n + 32) else c.

Fixpoint lower (s : string) : string :=
  match s with
  | EmptyString => EmptyString
  | String c s' => String (lower_ascii c) (lower s')
  end.

(** Whitespace as [str.split()] sees it. *)
Definition is_space (c : ascii) : bool :=
  let n := N_of_ascii c in
  (((9 <=? n) && (n <=? 13)) || ((28 <=? n) && (n <=? 32)))%N.

(** [s.split()]: maximal runs of non-whitespace characters. *)
Fixpoint split_go (cur : string) (s : string) : list string :=
  match s with
  | EmptyString =>
      match cur with EmptyString => [] | _ => [cur] end
  | String c s' =>
      if is_space c then
        match cur with
        | EmptyString => split_go EmptyString s'
        | _ => cur :: split_go EmptyString s'
        end
      else split_go (cur +:+ String c EmptyString) s'
  end.

Definition split (s : string) : list string := split_go EmptyString s.

(** [len(s)] *)
Definition len (s : string) : Z := Z.of_nat (String.length s).

End AsciiStr.

(** [str.lower] on the fragment made of a message: the text after the
    closing bracket and the space is lower-cased as it is on its own.
    [str.lower] maps character by character, and its one rule that looks
    at the neighbours of a character (capital sigma at the end of a word)
    does not look past a space. *)
Definition lower_after_label `{Runtime} : Prop :=
  ∀ label text,
    str_lower ("[" +:+ label +:+ "] " +:+ text)
    = str_lower ("[" +:+ label +:+ "] ") +:+ str_lower text.

(** A runtime whose string methods do on ASCII text what Python's do. *)
Definition ascii_runtime `{Runtime} : Prop :=
  ∀ s, AsciiStr.is_ascii s = true →
    str_lower s = AsciiStr.lower s
    ∧ str_split s = AsciiStr.split s
    ∧ str_len s = AsciiStr.len s.

(** A stand-in for [json.loads] that reads back [null], the booleans and
    the string literals [json.dumps] writes without an escape, and raises
    on every other text. *)
Definition example_loads (s : string) : option json :=
  if decide (s = "null") then Some JNull
  else if decide (s = "true") then Some (JBool true)
  else if decide (s = "false") then Some (JBool false)
  else
    match s with
    | String _ rest =>
        match String.rev rest with
        | String _ r =>
            let inner := String.rev r in
            if decide (Json.encode_basestring inner = s)
            then Some (JStr inner) else None
        | EmptyString => None
        end
    | EmptyString => None
    end.

(** Stand-ins for the other library functions, so that the operations can
    be run on examples: a value prints as its JSON text, the digest of a
    text is the text itself (different texts get different keys), and the
    hash of a string is its length.  The string methods are those of
    [AsciiStr]; the examples hold ASCII text only. *)
Definition example_runtime : Runtime :=
  {| json_loads := example_loads;
     py_str_len := λ v, AsciiStr.len (Json.dumps false v);
     md5_hexdigest := λ s, s;
     py_hash := AsciiStr.len;
     str_lower := AsciiStr.lower;
     str_split := AsciiStr.split;
     str_len := AsciiStr.len |}.

(** ** Example states *)

Definition example_entry (k : string) (v : json) (ttl created accessed : Z)
  : string * CacheService.CacheEntry :=
  (k, {| CacheService.key := k; CacheService.value := v;
         CacheService.ttl := ttl; CacheService.created_at := created;
         CacheService.access_count := 0;
         CacheService.last_accessed := accessed |}).

(** A memory tier of capacity two holding three entries, as promotions
    can leave it; [c] runs out at time 5. *)
Definition crowded : CacheService.t :=
  {| CacheService._memory_cache :=
       [example_entry "a" (JStr "va") 100 0 5;
        example_entry "b" (JStr "vb") 100 0 3;
        example_entry "c" (JStr "vc") 5 0 4];
     CacheService.max_memory_entries := 2;
     CacheService.db := ∅ |}.

(** A memory tier whose only entry runs out at time 10. *)
Definition stale : CacheService.t :=
  {| CacheService._memory_cache := [example_entry "k" (JStr "v") 10 0 0];
     CacheService.max_memory_entries := 1000;
     CacheService.db := ∅ |}.

(** A key the persistent tier alone holds, written at time 0 for 100
    ticks. *)
Definition evicted : CacheService.t :=
  {| CacheService._memory_cache := [];
     CacheService.max_memory_entries := 1000;
     CacheService.db :=
       {[ "k" := {| CacheService.row_value := Json.dumps false (JStr "hello");
                    CacheService.row_ttl := 100;
                    CacheService.row_created_at := 0;
                    CacheService.row_access_count := 0;
                    CacheService.row_last_accessed := 0 |} ]} |}.

(** A session in which three messages mention hiking, and no history
    files. *)
Definition hiking_session : ChatHistoryManager.t :=
  {| ChatHistoryManager.current_session :=
       [ {| role := Some "user"; content := Some "I love hiking" |};
         {| role := Some "assistant"; content := Some "hiking is fun" |};
         {| role := Some "user"; content := Some "more hiking please" |} ];
     ChatHistoryManager.history_dir := [];
     ChatHistoryManager.calls := 0 |}.

(** ** The rest of [cache_service.py] *)

Module CacheServiceRest.
Import CacheService.

(** How the database block of [delete] ends: it runs to its end; it
    raises before [cursor.rowcount] is read (in [connect] or [execute]);
    or [conn.commit()] raises, when [success] has already been set from
    the row count.  A block that raises leaves the table unchanged. *)
Inductive DeleteRun := Committed | RaisedBeforeCount | RaisedAtCommit.

(** [delete]: the flag is [success]. *)
Definition delete (self : t) (key : string) (run : DeleteRun) : bool * t :=
  let '(success, self) :=
    match Py.dict_get key (_memory_cache self) with
    | Some _ =>
        (true, with_memory self (Py.dict_del key (_memory_cache self)))
    | None => (false, self)
    end in
  let counted := success || bool_decide (is_Some (db self !! key)) in
  match run with
  | Committed => (counted, with_db self (base.delete key (db self)))
  | RaisedBeforeCount => (success, self)
  | RaisedAtCommit => (counted, self)
  end.

(** [clear] *)
Definition clear (self : t) (memory_only : bool) (io_ok : bool) : t :=
  let self := with_memory self [] in
  if memory_only then self
  else if io_ok then with_db self ∅ else self.

(** One entry of the [memory_cache] object [export_cache] writes. *)
Record ExportItem := {
  item_value : json;
  item_ttl : Z;
  item_created_at : Z;
  item_access_count : Z;
  item_last_accessed : Z;
}.

(** The exported file: a JSON object keeps the order of its items. *)
Record ExportFile := {
  file_memory_cache : list (string * ExportItem);
  export_time : Z;
}.

Definition export_item (e : CacheEntry) : ExportItem :=
  {| item_value := value e; item_ttl := ttl e;
     item_created_at := created_at e;
     item_access_count := access_count e;
     item_last_accessed := last_accessed e |}.

(** [export_cache]: the flag returned and, when the file could be written,
    its content. *)
Definition export_cache (self : t) (now : Z) (io_ok : bool)
  : bool * option ExportFile :=
  let export_data :=
    {| file_memory_cache :=
         foldl (λ d kv, Py.dict_set kv.1 (export_item kv.2) d) []
           (_memory_cache self);
       export_time := now |} in
  if io_ok then (true, Some export_data) else (false, None).

Definition import_item (key : string) (data : ExportItem) : CacheEntry :=
  {| CacheService.key := key; value := item_value data; ttl := item_ttl data;
     created_at := item_created_at data;
     access_count := item_access_count data;
     last_accessed := item_last_accessed data |}.

(** [import_cache] for a file of the shape [export_cache] writes; [None]
    stands for a file that cannot be opened or parsed.  [io_ok] belongs to
    the [clear()] of the [merge=False] case. *)
Definition import_cache (self : t) (file : option ExportFile) (merge : bool)
    (current_time : Z) (io_ok : bool) : bool * t :=
  match file with
  | None => (false, self)
  | Some import_data =>
      let self := if merge then self else clear self false io_ok in
      (true,
       with_memory self
         (foldl (λ d kv,
                   if decide (current_time - item_created_at kv.2
                              < item_ttl kv.2)
                   then Py.dict_set kv.1 (import_item kv.1 kv.2) d
                   else d)
            (_memory_cache self) (file_memory_cache import_data)))
  end.

Section WithRuntime.
Context `{Runtime}.

(** The payload both LLM-cache functions hash. *)
Definition llm_payload (user_input system_prompt : string) : json :=
  JDict [("user_input", JStr user_input); ("system_prompt", JStr system_prompt)].

Definition cache_llm_response (self : t) (user_input system_prompt : string)
    (response : string) (ttl : Z) (current_time cleanup_time : Z)
    (io_ok : bool) : t :=
  let key := _generate_key "llm" (llm_payload user_input system_prompt) in
  set self key (JStr response) ttl true current_time cleanup_time io_ok.

Definition get_cached_llm_response (self : t)
    (user_input system_prompt : string) (current_time : Z) (io_ok : bool)
  : option json * t :=
  let key := _generate_key "llm" (llm_payload user_input system_prompt) in
  get self key current_time io_ok.

End WithRuntime.

End CacheServiceRest.

(** ** The rest of [chat_history_manager.py] *)

Module ChatHistoryManagerRest.
Import ChatHistoryManager.

(** [l[n:]] for an integer [n] of either sign. *)
Definition slice_from {A} (n : Z) (l : list A) : list A :=
  if decide (0 <= n) then drop (Z.to_nat n) l
  else drop (length l - Z.to_nat (- n)) l.

Section WithRuntime.
Context `{Runtime}.

(** [keyword.lower() in msg.get('content', '').lower()] *)
Definition found (keyword : string) (msg : Message) : bool :=
  Py.contains (str_lower keyword)
    (str_lower (default EmptyString (content msg))).

(** A loop of [search_history] over one list of messages; the flag says
    that the function returned from inside the loop. *)
Fixpoint search_messages (keyword : string) (limit : Z)
    (messages : list Message) (results : list Message)
  : list Message * bool :=
  match messages with
  | [] => (results, false)
  | msg :: rest =>
      if found keyword msg then
        let results := results ++ [msg] in
        if decide (limit <= Z.of_nat (length results)) then (results, true)
        else search_messages keyword limit rest results
      else search_messages keyword limit rest results
  end.

(** The loop over the history files. *)
Fixpoint search_files (self : t) (keyword : string) (limit : Z)
    (files : list string) (results : list Message) : list Message :=
  match files with
  | [] => results
  | file_path :: rest =>
      let messages := (load_history_file self file_path).1 in
      let '(results, returned) :=
        search_messages keyword limit messages results in
      if returned then results
      else search_files self keyword limit rest results
  end.

(** [search_history]; the object is not changed. *)
Definition search_history (self : t) (keyword : string) (limit : Z)
  : list Message :=
  let '(results, returned) :=
    search_messages keyword limit (current_session self) [] in
  if returned then results
  else search_files self keyword limit (get_history_files self 10).1 results.

(** The loop of [get_recent_memories], leaving at the [break]. *)
Fixpoint recent_loop (limit : Z) (messages : list Message)
    (memories : list string) : list string :=
  match messages with
  | [] => memories
  | msg :: rest =>
      if decide (50 < str_len (default EmptyString (content msg))) then
        let memories := memories ++ [MemoryManager.render msg] in
        if decide (limit <= Z.of_nat (length memories)) then memories
        else recent_loop limit rest memories
      else recent_loop limit rest memories
  end.

Definition get_recent_memories (self : t) (limit : Z) : list string :=
  reverse
    (recent_loop limit
       (reverse (slice_from (- limit * 2) (current_session self))) []).

End WithRuntime.

End ChatHistoryManagerRest.

(** ** The rest of [memory_manager.py] *)

Module MemoryManagerRest.
Import MemoryManager.

(** [clear_cache] *)
Definition clear_cache (self : t) : t :=
  {| chat_history_manager := chat_history_manager self;
     memory_cache := ∅;
     cache_expiry := cache_expiry self |}.

End MemoryManagerRest.

(** ** Notions used in the further statements *)

(** Every entry of the memory tier carries the key it is stored under. *)
Definition keys_consistent (items : list (string * CacheService.CacheEntry))
  : Prop :=
  ∀ k e, (k, e) ∈ items → CacheService.key e = k.

(** What every reachable state of the memory tier satisfies: it is a
    dictionary, and each entry records the key it is stored under. *)
Definition memory_invariant (self : CacheService.t) : Prop :=
  Py.dict_wf (CacheService._memory_cache self)
  ∧ keys_consistent (CacheService._memory_cache self).

(** The messages of the first [n] files of the history directory, in the
    order the loops read them. *)
Definition history_messages (self : ChatHistoryManager.t) (n : nat)
  : list Message :=
  concat (map (λ file_path,
                 default [] (Py.dict_get file_path
                               (ChatHistoryManager.history_dir self)))
            (take n (ChatHistoryManager.history_dir self).*1)).

(** The fragments a source offers: its matching messages, rendered. *)
Definition candidates `{Runtime} (query : string) (messages : list Message)
  : list string :=
  map MemoryManager.render
    (List.filter (MemoryManager.msg_matches query) messages).


(** The window of the session the retriever reads. *)
Definition session_window (self : ChatHistoryManager.t) : list Message :=
  Py.slice_last 50 (ChatHistoryManager.current_session self).

(** A file as [export_cache] writes it, with one item that has run out
    by time 50. *)
Definition example_file : CacheServiceRest.ExportFile :=
  {| CacheServiceRest.file_memory_cache :=
       [("a", {| CacheServiceRest.item_value := JStr "new";
                 CacheServiceRest.item_ttl := 100;
                 CacheServiceRest.item_created_at := 0;
                 CacheServiceRest.item_access_count := 2;
                 CacheServiceRest.item_last_accessed := 7 |});
        ("z", {| CacheServiceRest.item_value := JStr "old";
                 CacheServiceRest.item_ttl := 10;
                 CacheServiceRest.item_created_at := 0;
                 CacheServiceRest.item_access_count := 0;
                 CacheServiceRest.item_last_accessed := 0 |})];
     CacheServiceRest.export_time := 8 |}.

(** A later state of the chat history: one more message, and a history
    file. *)
Definition later_session : ChatHistoryManager.t :=
  {| ChatHistoryManager.current_session :=
       ChatHistoryManager.current_session hiking_session
       ++ [ {| role := Some "user"; content := Some "hiking again" |} ];
     ChatHistoryManager.history_dir :=
       [("session_1.json",
         [ {| role := Some "user"; content := Some "old hiking trip" |} ])];
     ChatHistoryManager.calls := 0 |}.

(** A longer conversation: four messages of the session mention hiking,
    three of its last four are longer than fifty characters and one has
    exactly fifty; and three history files, newest first. *)
Definition long_session : ChatHistoryManager.t :=
  {| ChatHistoryManager.current_session :=
       [ {| role := Some "user";
            content := Some "we went hiking in the mountains last summer and it rained all week" |};
         {| role := Some "assistant";
            content := Some "that sounds like a wet hiking trip" |};
         {| role := Some "user";
            content := Some "my boots were soaked through by the second day of the hiking tour" |};
         {| role := Some "assistant";
            content := Some "did you at least see the view from the summit when the clouds parted" |};
         {| role := Some "user";
            content := Some "it was cold and windy up there, but worth the walk" |};
         {| role := None;
            content := Some "the summit was clear for one hour of our hiking tour and we had lunch" |} ];
     ChatHistoryManager.history_dir :=
       [("session_3.json",
         [ {| role := Some "user"; content := Some "Hiking in spring" |};
           {| role := Some "assistant"; content := Some "cooking at home" |};
           {| role := Some "user"; content := Some "hiking in autumn" |} ]);
        ("session_2.json",
         [ {| role := Some "user"; content := Some "a hiking map" |};
           {| role := Some "user"; content := Some "hiking poles" |} ]);
        ("session_1.json",
         [ {| role := Some "user"; content := Some "hiking shoes" |} ])];
     ChatHistoryManager.calls := 0 |}.

(** * Properties *)

(** ** Facts about the Python built-ins *)

Lemma map_fmap {A B} (f : A → B) (l : list A) : map f l = f <$> l.
Proof. induction l as [|a l IH]; [done|]. cbn. by rewrite IH. Qed.

Lemma filter_ext_elem {A} (P Q : A → Prop) `{!∀ x, Decision (P x)}
    `{!∀ x, Decision (Q x)} (l : list A) :
  (∀ x, x ∈ l → P x ↔ Q x) → filter P l = filter Q l.
Proof.
  induction l as [|a l IH]; intros HPQ; [done|].
  rewrite !filter_cons.
  rewrite IH by (intros x Hx; apply HPQ; by right).
  apply decide_ext, HPQ. by left.
Qed.

Section SortFacts.
Context {A : Type} (before : A → A → bool).

Lemma insert_sorted_perm x l : Py.insert_sorted before x l ≡ₚ x :: l.
Proof.
  induction l as [|y l IH]; simpl; [done|].
  destruct (before x y); [done|].
  rewrite IH. apply perm_swap.
Qed.

Lemma sorted_perm l : Py.sorted before l ≡ₚ l.
Proof.
  induction l as [|x l IH]; simpl; [done|].
  rewrite insert_sorted_perm. by constructor.
Qed.

Lemma length_sorted l : length (Py.sorted before l) = length l.
Proof. by rewrite sorted_perm. Qed.

Lemma elem_of_sorted x l : x ∈ Py.sorted before l ↔ x ∈ l.
Proof. by rewrite sorted_perm. Qed.

(** With a total and transitive [before], the result is ordered. *)
Section Ordered.
Hypothesis before_total : ∀ x y, before x y = false → before y x = true.
Hypothesis before_trans :
  ∀ x y z, before x y = true → before y z = true → before x z = true.

Lemma insert_sorted_ordered x l :
  StronglySorted (λ a b, before a b = true) l →
  StronglySorted (λ a b, before a b = true) (Py.insert_sorted before x l).
Proof.
  induction 1 as [|y l Hl IH Hy]; simpl.
  - repeat constructor.
  - destruct (before x y) eqn:Hxy.
    + constructor; [by constructor|].
      constructor; [done|].
      eapply Forall_impl; [exact Hy|]. intros z Hz. by eapply before_trans.
    + constructor; [done|].
      rewrite insert_sorted_perm. constructor; [|done].
      by apply before_total.
Qed.

Lemma sorted_ordered l :
  StronglySorted (λ a b, before a b = true) (Py.sorted before l).
Proof.
  induction l as [|x l IH]; simpl; [constructor|].
  by apply insert_sorted_ordered.
Qed.
End Ordered.

(** Stability, in the form used below: an element that nothing before it
    beats and that beats nothing after it ends up last. *)
Lemma insert_sorted_last x l :
  Forall (λ y, before x y = false) l → Py.insert_sorted before x l = l ++ [x].
Proof.
  induction 1 as [|y l Hy _ IH]; simpl; [done|].
  by rewrite Hy, IH.
Qed.

Lemma insert_sorted_snoc y l x :
  before y x = true →
  Py.insert_sorted before y (l ++ [x]) = Py.insert_sorted before y l ++ [x].
Proof.
  intros Hyx. induction l as [|z l IH]; simpl.
  - by rewrite Hyx.
  - destruct (before y z); [done|]. by rewrite IH.
Qed.

Lemma sorted_last l1 x l2 :
  Forall (λ y, before y x = true) l1 →
  Forall (λ y, before x y = false) l2 →
  Py.sorted before (l1 ++ x :: l2) = Py.sorted before (l1 ++ l2) ++ [x].
Proof.
  intros H1 H2. induction H1 as [|y l1 Hy _ IH].
  - change (Py.insert_sorted before x (Py.sorted before l2)
            = Py.sorted before l2 ++ [x]).
    apply insert_sorted_last.
    apply Forall_forall. intros z Hz. rewrite elem_of_sorted in Hz.
    rewrite Forall_forall in H2. by apply H2.
  - change (Py.insert_sorted before y (Py.sorted before (l1 ++ x :: l2))
            = Py.insert_sorted before y (Py.sorted before (l1 ++ l2)) ++ [x]).
    rewrite IH. by apply insert_sorted_snoc.
Qed.

End SortFacts.

Section DictFacts.
Context {A : Type}.
Implicit Types (d : list (string * A)) (k : string) (v : A).

Lemma dict_get_Some_elem k v d : Py.dict_get k d = Some v → (k, v) ∈ d.
Proof.
  induction d as [|[k' v'] d IH]; simpl; [done|].
  case_decide; intros; simplify_eq; [left|right; auto].
Qed.

Lemma dict_get_None k d : Py.dict_get k d = None ↔ k ∉ d.*1.
Proof.
  induction d as [|[k' v'] d IH]; simpl.
  - split; [intros _; apply not_elem_of_nil|done].
  - rewrite not_elem_of_cons. case_decide; naive_solver.
Qed.

Lemma dict_get_elem k v d : Py.dict_wf d → (k, v) ∈ d → Py.dict_get k d = Some v.
Proof.
  unfold Py.dict_wf. induction d as [|[k' v'] d IH]; simpl.
  - by intros _ ?%elem_of_nil.
  - rewrite NoDup_cons. intros [Hk' Hd] [?|Hin]%elem_of_cons; simplify_eq.
    + by rewrite decide_True.
    + rewrite decide_False; [auto|].
      intros ->. apply Hk'. by apply (list_elem_of_fmap_2 fst) in Hin.
Qed.

Lemma dict_get_set_eq k v d : Py.dict_get k (Py.dict_set k v d) = Some v.
Proof.
  induction d as [|[k' v'] d IH]; simpl.
  - by rewrite decide_True.
  - case_decide; simpl; [by rewrite decide_True|by rewrite decide_False].
Qed.

Lemma dict_get_set_ne k k' v d :
  k ≠ k' → Py.dict_get k' (Py.dict_set k v d) = Py.dict_get k' d.
Proof.
  intros Hne. induction d as [|[k1 v1] d IH]; simpl.
  - by rewrite decide_False.
  - case_decide; simpl; subst.
    + by rewrite !decide_False.
    + by rewrite IH.
Qed.

(** Writing a key leaves the other items where they are. *)
Lemma dict_set_split k v d :
  ∃ l1 l2, Py.dict_set k v d = l1 ++ (k, v) :: l2 ∧
    (Py.dict_get k d = None → l1 = d ∧ l2 = []) ∧
    (Py.dict_wf d → l1 ++ l2 ⊆ d ∧ k ∉ (l1 ++ l2).*1).
Proof.
  unfold Py.dict_wf.
  induction d as [|[k' v'] d (l1 & l2 & Heq & Hnone & Hwf)]; simpl.
  - exists [], []. split_and!; try done.
    intros _. split; [done|apply not_elem_of_nil].
  - case_decide as Hk; subst.
    + exists [], d. simpl. split_and!; try done.
      intros [Hk Hd]%NoDup_cons. split; [set_solver|done].
    + exists ((k', v') :: l1), l2. simpl. split_and!.
      * by rewrite Heq.
      * intros Hget. destruct (Hnone Hget) as [-> ->]. done.
      * intros [Hk' Hd]%NoDup_cons. destruct (Hwf Hd) as [Hsub Hnin].
        split; [set_solver|]. rewrite not_elem_of_cons. split; [done|done].
Qed.

Lemma elem_of_dict_set_keys k v d x :
  x ∈ (Py.dict_set k v d).*1 ↔ x = k ∨ x ∈ d.*1.
Proof.
  induction d as [|[k' v'] d IH]; simpl.
  - rewrite list_elem_of_singleton. rewrite elem_of_nil. tauto.
  - case_decide; subst; rewrite !fmap_cons, !elem_of_cons; simpl.
    + tauto.
    + rewrite IH. tauto.
Qed.

Lemma dict_set_wf k v d : Py.dict_wf d → Py.dict_wf (Py.dict_set k v d).
Proof.
  unfold Py.dict_wf. induction d as [|[k' v'] d IH]; simpl.
  - intros _. apply NoDup_singleton.
  - rewrite !NoDup_cons. intros [Hk' Hd]. case_decide; subst; simpl.
    + by rewrite NoDup_cons.
    + rewrite NoDup_cons. split; [|auto].
      rewrite elem_of_dict_set_keys. intros [?|?]; done.
Qed.

Lemma filter_wf (P : string * A → Prop) `{!∀ x, Decision (P x)} d :
  Py.dict_wf d → Py.dict_wf (filter P d).
Proof.
  unfold Py.dict_wf. intros Hd.
  eapply sublist_NoDup; [exact Hd|].
  apply fmap_sublist. by apply sublist_filter.
Qed.

Lemma dict_get_del_eq k d : Py.dict_get k (Py.dict_del k d) = None.
Proof.
  apply dict_get_None. unfold Py.dict_del.
  intros ([k' v'] & -> & [? _]%list_elem_of_filter)%list_elem_of_fmap. done.
Qed.

Lemma dict_get_del_ne k k' d :
  k ≠ k' → Py.dict_get k' (Py.dict_del k d) = Py.dict_get k' d.
Proof.
  intros Hne. unfold Py.dict_del. induction d as [|[k1 v1] d IH]; [done|].
  rewrite filter_cons. simpl. repeat case_decide; simpl; subst; try done.
  - by rewrite decide_True.
  - by rewrite decide_False.
Qed.

(** The deletion loop removes the items whose key is in the list. *)
Lemma foldl_dict_del ks d :
  foldl (λ m k, Py.dict_del k m) d ks = filter (λ kv, kv.1 ∉ ks) d.
Proof.
  revert d. induction ks as [|k ks IH]; intros d; simpl.
  - symmetry. induction d as [|x d IHd]; [done|].
    rewrite filter_cons_True by apply not_elem_of_nil. by rewrite IHd.
  - rewrite IH. unfold Py.dict_del. rewrite list_filter_filter.
    apply list_filter_iff. intros [k' v']. simpl.
    rewrite not_elem_of_cons. naive_solver.
Qed.

(** Deleting a key that is present shortens the dictionary by one. *)
Lemma length_dict_del k d :
  Py.dict_wf d → k ∈ d.*1 → S (length (Py.dict_del k d)) = length d.
Proof.
  unfold Py.dict_wf, Py.dict_del. induction d as [|[k' v'] d IH]; simpl.
  - by intros _ ?%elem_of_nil.
  - rewrite NoDup_cons, elem_of_cons. intros [Hk' Hd] Hin.
    rewrite filter_cons. simpl. case_decide as Hne; simpl.
    + destruct Hin as [->|Hin]; [done|]. by rewrite IH.
    + subst. f_equal. clear IH Hin.
      induction d as [|[k1 v1] d IH]; [done|].
      simpl in Hk'. apply not_elem_of_cons in Hk' as [Hne Hk'].
      apply NoDup_cons in Hd as [_ Hd].
      rewrite filter_cons_True by (simpl; congruence).
      simpl. by rewrite IH.
Qed.

Lemma length_filter_not_elem ks d :
  Py.dict_wf d → NoDup ks → ks ⊆ d.*1 →
  (length (filter (λ kv, kv.1 ∉ ks) d) + length ks = length d)%nat.
Proof.
  intros Hd. induction 1 as [|k ks Hk Hks IH]; intros Hsub.
  - simpl. rewrite (filter_ext_elem _ (λ _, True)).
    + clear. induction d as [|x d IH]; [done|].
      rewrite filter_cons_True by done. simpl. lia.
    + intros x _. split; [done|]. intros _. apply not_elem_of_nil.
  - rewrite (list_filter_iff _ (λ kv, kv.1 ≠ k ∧ kv.1 ∉ ks))
      by (intros [k' v']; simpl; rewrite not_elem_of_cons; naive_solver).
    rewrite <- list_filter_filter. fold (Py.dict_del k (filter (λ kv, kv.1 ∉ ks) d)).
    assert (Hlen := length_dict_del k (filter (λ kv, kv.1 ∉ ks) d)).
    rewrite <- IH by set_solver. simpl.
    rewrite <- Hlen; [lia|by apply filter_wf|].
    assert (k ∈ d.*1) as ([k' v'] & -> & Hin)%list_elem_of_fmap by set_solver.
    apply list_elem_of_fmap. exists (k', v'). split; [done|].
    apply list_elem_of_filter. done.
Qed.

End DictFacts.

(** ** The capacity sweep *)

Section SweepFacts.
Import CacheService.
Implicit Types (items : list (string * CacheEntry)) (self : CacheService.t).

Lemma live_not_expired now e : live now e ↔ ¬ expired now e.
Proof. unfold live, expired. lia. Qed.

Lemma expired_keys now items k e :
  Py.dict_wf items → (k, e) ∈ items →
  k ∈ (filter (λ kv, expired now kv.2) items).*1 ↔ expired now e.
Proof.
  intros Hwf Hin. rewrite list_elem_of_fmap. split.
  - intros ([k' e'] & -> & [Hexp Hin']%list_elem_of_filter). simpl in *.
    apply (dict_get_elem _ _ _ Hwf) in Hin, Hin'. by simplify_eq.
  - intros Hexp. exists (k, e). split; [done|]. by apply list_elem_of_filter.
Qed.

Lemma filter_not_expired_keys now items :
  Py.dict_wf items →
  filter (λ kv, kv.1 ∉ (filter (λ kv, expired now kv.2) items).*1) items
  = survivors now items.
Proof.
  intros Hwf. apply filter_ext_elem. intros [k e] Hin. simpl.
  rewrite (expired_keys now items k e Hwf Hin). by rewrite live_not_expired.
Qed.

Lemma length_survivors now items :
  Z.of_nat (length items)
  - Z.of_nat (length (filter (λ kv, expired now kv.2) items).*1)
  = Z.of_nat (length (survivors now items)).
Proof.
  rewrite length_fmap. unfold survivors.
  rewrite <- (filter_app_complement (λ kv, expired now kv.2) items) at 1.
  rewrite length_app.
  rewrite (list_filter_iff (λ kv, live now kv.2) (λ kv, ¬ expired now kv.2))
    by (intros; apply live_not_expired).
  lia.
Qed.

(** The list of keys to delete in closed form: the keys of the expired
    entries, then the least recently accessed survivors in excess. *)
Lemma keys_to_delete_closed_form `{Runtime} self now :
  Py.dict_wf (_memory_cache self) →
  keys_to_delete self now
  = (filter (λ kv, expired now kv.2) (_memory_cache self)).*1
    ++ lru_keys (max_memory_entries self) (survivors now (_memory_cache self)).
Proof.
  intros Hwf. unfold keys_to_delete. simpl.
  rewrite length_survivors, filter_not_expired_keys by done.
  unfold lru_keys. fold (access_times (survivors now (_memory_cache self))).
  fold by_last_accessed.
  case_decide; [done|by rewrite app_nil_r].
Qed.

(** The sweep in closed form: keep the survivors whose key is not among
    the least recently accessed ones in excess. *)
Lemma cleanup_closed_form `{Runtime} self now :
  Py.dict_wf (_memory_cache self) →
  _memory_cache (_cleanup_memory_cache self now)
  = filter (λ kv, kv.1 ∉ lru_keys (max_memory_entries self)
                            (survivors now (_memory_cache self)))
      (survivors now (_memory_cache self)).
Proof.
  intros Hwf. unfold _cleanup_memory_cache. simpl.
  rewrite foldl_dict_del, keys_to_delete_closed_form by done.
  generalize (lru_keys (max_memory_entries self)
                (survivors now (_memory_cache self))).
  intros evk. rewrite <- (filter_not_expired_keys now _ Hwf).
  rewrite list_filter_filter. apply list_filter_iff.
  intros [k e]. simpl. rewrite not_elem_of_app. tauto.
Qed.

Lemma access_times_keys items : (access_times items).*1 = items.*1.
Proof.
  unfold access_times.
  induction items as [|[k e] items IH]; [done|].
  cbn. cbn in IH. by rewrite IH.
Qed.

Lemma elem_of_access_times items k a :
  (k, a) ∈ access_times items ↔ ∃ e, (k, e) ∈ items ∧ a = last_accessed e.
Proof.
  unfold access_times. rewrite map_fmap, list_elem_of_fmap. split.
  - intros ([k' e] & [= -> ->] & Hin). by exists e.
  - intros (e & Hin & ->). by exists (k, e).
Qed.

Lemma sorted_access_times_ordered items :
  StronglySorted (λ a b, by_last_accessed a b = true)
    (Py.sorted by_last_accessed (access_times items)).
Proof.
  apply sorted_ordered; unfold by_last_accessed; intros; lia.
Qed.

Lemma lru_keys_take max items :
  max < Z.of_nat (length items) →
  lru_keys max items
  = (take (Z.to_nat (Z.of_nat (length items) - max))
       (Py.sorted by_last_accessed (access_times items))).*1.
Proof.
  intros Hlt. unfold lru_keys, Py.slice_to.
  rewrite decide_True by done.
  destruct (0 <=? Z.of_nat (length items) - max) eqn:Hle; [done|lia].
Qed.

Lemma elem_of_slice_to {A} (n : Z) (l : list A) x : x ∈ Py.slice_to n l → x ∈ l.
Proof. unfold Py.slice_to. case_match; apply subseteq_take. Qed.

Lemma lru_keys_subseteq max items : lru_keys max items ⊆ items.*1.
Proof.
  unfold lru_keys. case_decide; [|set_solver].
  intros k (p & -> & Hp)%list_elem_of_fmap.
  apply elem_of_slice_to in Hp. rewrite elem_of_sorted in Hp.
  rewrite <- access_times_keys. by apply list_elem_of_fmap_2.
Qed.

Lemma lru_keys_NoDup max items : Py.dict_wf items → NoDup (lru_keys max items).
Proof.
  unfold Py.dict_wf, lru_keys. intros Hwf. case_decide; [|constructor].
  apply (sublist_NoDup _
           (Py.sorted by_last_accessed (access_times items)).*1).
  - rewrite (sorted_perm by_last_accessed (access_times items)).
    by rewrite access_times_keys.
  - apply fmap_sublist. unfold Py.slice_to. case_match; apply sublist_take.
Qed.

Lemma length_lru_keys max items :
  0 <= max < Z.of_nat (length items) →
  Z.of_nat (length (lru_keys max items)) = Z.of_nat (length items) - max.
Proof.
  intros [H0 Hlt]. rewrite lru_keys_take by done.
  rewrite length_fmap, length_take, length_sorted.
  unfold access_times. rewrite length_map. lia.
Qed.

(** What is evicted was accessed no later than what is kept. *)
Lemma lru_keys_oldest max items x y :
  Py.dict_wf items → x ∈ items → y ∈ items →
  x.1 ∈ lru_keys max items → y.1 ∉ lru_keys max items →
  last_accessed x.2 <= last_accessed y.2.
Proof.
  intros Hwf Hx Hy Hxk Hyk.
  destruct (decide (max < Z.of_nat (length items))) as [Hlt|Hge];
    [|unfold lru_keys in Hxk; rewrite decide_False in Hxk by done;
      by apply elem_of_nil in Hxk].
  rewrite lru_keys_take in Hxk, Hyk by done.
  set (n := Z.to_nat (Z.of_nat (length items) - max)) in *.
  set (s := Py.sorted by_last_accessed (access_times items)) in *.
  assert (Hs : StronglySorted (λ a b, by_last_accessed a b = true)
                 (take n s ++ drop n s)).
  { rewrite take_drop. apply sorted_access_times_ordered. }
  apply StronglySorted_app in Hs as (Hord & _ & _).
  apply list_elem_of_fmap in Hxk as ([k a] & Hk & Hin). simpl in Hk. subst k.
  assert ((x.1, a) ∈ s) as Hins by (eapply subseteq_take; eauto).
  apply elem_of_sorted, elem_of_access_times in Hins as (e & Hine & ->).
  assert (e = x.2) as ->.
  { apply (dict_get_elem _ _ _ Hwf) in Hine.
    destruct x as [kx ex]. apply (dict_get_elem _ _ _ Hwf) in Hx.
    simpl in *. congruence. }
  assert ((y.1, last_accessed y.2) ∈ s) as Hys.
  { apply elem_of_sorted, elem_of_access_times. exists y.2.
    by destruct y. }
  rewrite <- (take_drop n s), elem_of_app in Hys. destruct Hys as [Hys|Hys].
  - exfalso. apply Hyk. apply list_elem_of_fmap.
    by exists (y.1, last_accessed y.2).
  - specialize (Hord _ _ Hin Hys). unfold by_last_accessed in Hord.
    simpl in Hord. lia.
Qed.

(** The keys the deletion loop walks are distinct keys of the dictionary,
    so every [del] finds its key. *)
Lemma keys_to_delete_present `{Runtime} self now :
  Py.dict_wf (_memory_cache self) →
  NoDup (keys_to_delete self now) ∧
  keys_to_delete self now ⊆ (_memory_cache self).*1.
Proof.
  intros Hwf. rewrite keys_to_delete_closed_form by done.
  set (items := _memory_cache self) in *.
  assert (Hlive : Py.dict_wf (survivors now items)) by by apply filter_wf.
  assert (Hsub : lru_keys (max_memory_entries self) (survivors now items)
                 ⊆ (survivors now items).*1) by apply lru_keys_subseteq.
  split.
  - apply NoDup_app. split_and!.
    + by apply (filter_wf (λ kv, expired now kv.2)).
    + intros k Hexp Hlru. apply Hsub in Hlru.
      apply list_elem_of_fmap in Hlru as ([k' e] & -> & Hin).
      apply list_elem_of_filter in Hin as [Hl Hin]. simpl in *.
      apply (expired_keys now items k' e Hwf Hin) in Hexp.
      by apply live_not_expired in Hl.
    + by apply lru_keys_NoDup.
  - intros k [Hk|Hk]%elem_of_app.
    + apply list_elem_of_fmap in Hk as (kv & -> & [_ Hin]%list_elem_of_filter).
      by apply list_elem_of_fmap_2.
    + apply Hsub in Hk.
      apply list_elem_of_fmap in Hk as (kv & -> & [_ Hin]%list_elem_of_filter).
      by apply list_elem_of_fmap_2.
Qed.

(** The sweep, characterised. *)
Lemma cleanup_spec `{Runtime} self now :
  Py.dict_wf (_memory_cache self) →
  let live_items := survivors now (_memory_cache self) in
  let after := _memory_cache (_cleanup_memory_cache self now) in
  after `sublist_of` live_items ∧
  (Z.of_nat (length live_items) <= max_memory_entries self →
   after = live_items) ∧
  (0 <= max_memory_entries self < Z.of_nat (length live_items) →
   Z.of_nat (length after) = max_memory_entries self ∧
   ∀ x y, x ∈ live_items → x ∉ after → y ∈ after →
          last_accessed x.2 <= last_accessed y.2).
Proof.
  intros Hwf live_items after.
  assert (Hlive : Py.dict_wf live_items) by by apply filter_wf.
  assert (Hafter : after = filter
            (λ kv, kv.1 ∉ lru_keys (max_memory_entries self) live_items)
            live_items) by by apply cleanup_closed_form.
  split_and!.
  - rewrite Hafter. by apply sublist_filter.
  - intros Hle. rewrite Hafter. unfold lru_keys.
    rewrite decide_False by lia.
    rewrite (filter_ext_elem _ (λ _, True)).
    + clear. induction live_items as [|x l IH]; [done|].
      by rewrite filter_cons_True, IH.
    + intros x _. split; [done|]. intros _. apply not_elem_of_nil.
  - intros Hmax. split.
    + assert (Hlen := length_filter_not_elem
                (lru_keys (max_memory_entries self) live_items) live_items
                Hlive (lru_keys_NoDup _ _ Hlive) (lru_keys_subseteq _ _)).
      assert (Hk := length_lru_keys _ _ Hmax).
      rewrite Hafter. lia.
    + intros x y Hx Hnx Hy. rewrite Hafter in Hnx, Hy.
      apply list_elem_of_filter in Hy as [Hyk Hy].
      apply (lru_keys_oldest (max_memory_entries self) live_items);
        try done.
      destruct (decide (x.1 ∈ lru_keys (max_memory_entries self) live_items))
        as [|Hn]; [done|].
      exfalso. apply Hnx. by apply list_elem_of_filter.
Qed.

End SweepFacts.

(** ** The cache coordinator *)

Section CacheFacts.
Context `{Runtime}.
Import CacheService.
Implicit Types (self : CacheService.t) (key : string) (value : json).

Lemma set_memory self key value ttl persist t0 t1 io :
  _memory_cache (set self key value ttl persist t0 t1 io)
  = _memory_cache
      (_cleanup_memory_cache
         (with_memory self
            (Py.dict_set key (written key value ttl t0) (_memory_cache self)))
         t1).
Proof. unfold set. by destruct (persist && io). Qed.

Lemma set_memory_sublist self key value ttl persist t0 t1 io :
  Py.dict_wf (_memory_cache self) →
  _memory_cache (set self key value ttl persist t0 t1 io)
  `sublist_of` Py.dict_set key (written key value ttl t0) (_memory_cache self).
Proof.
  intros Hwf. rewrite set_memory.
  destruct (cleanup_spec
              (with_memory self
                 (Py.dict_set key (written key value ttl t0) (_memory_cache self)))
              t1) as (Hsub & _); [by apply dict_set_wf|].
  etrans; [exact Hsub|]. by apply sublist_filter.
Qed.

Lemma set_wf self key value ttl persist t0 t1 io :
  Py.dict_wf (_memory_cache self) →
  Py.dict_wf (_memory_cache (set self key value ttl persist t0 t1 io)).
Proof.
  intros Hwf. unfold Py.dict_wf.
  eapply sublist_NoDup; [apply (dict_set_wf key (written key value ttl t0)), Hwf|].
  apply fmap_sublist. by apply set_memory_sublist.
Qed.

(** Together with [set_wf]: the memory tier is a dictionary in every
    state the operations reach. *)
Lemma init_wf n : Py.dict_wf (_memory_cache (init n)).
Proof. constructor. Qed.

Lemma get_wf self key now io :
  Py.dict_wf (_memory_cache self) →
  Py.dict_wf (_memory_cache (get self key now io).2).
Proof.
  intros Hwf.
  assert (Hdel : Py.dict_wf (Py.dict_del key (_memory_cache self)))
    by by apply filter_wf.
  unfold get, get_memory, get_persistent.
  repeat (case_match || case_decide); simplify_eq; simpl;
    auto using dict_set_wf.
Qed.

(** After [set], the memory tier holds at [key] the entry just written or
    nothing. *)
Lemma set_memory_get self key value ttl persist t0 t1 io e :
  Py.dict_wf (_memory_cache self) →
  Py.dict_get key (_memory_cache (set self key value ttl persist t0 t1 io)) = Some e →
  e = written key value ttl t0.
Proof.
  intros Hwf Hget. apply dict_get_Some_elem in Hget.
  eapply sublist_subseteq in Hget; [|by apply set_memory_sublist].
  apply dict_get_elem in Hget; [|by apply dict_set_wf].
  rewrite dict_get_set_eq in Hget. congruence.
Qed.

(** The entry just written outlives the sweep when the capacity is at
    least one and no other entry counts as accessed later. *)
Lemma written_survives self key value ttl persist t0 t1 io :
  Py.dict_wf (_memory_cache self) →
  1 <= max_memory_entries self →
  t1 - t0 < ttl →
  ((∀ k e, (k, e) ∈ _memory_cache self → k ≠ key → last_accessed e < t0) ∨
   (Py.dict_get key (_memory_cache self) = None ∧
    ∀ k e, (k, e) ∈ _memory_cache self → last_accessed e <= t0)) →
  Py.dict_get key (_memory_cache (set self key value ttl persist t0 t1 io))
  = Some (written key value ttl t0).
Proof.
  intros Hwf Hmax Hlive Hrecent.
  assert (Hwf' : Py.dict_wf
            (Py.dict_set key (written key value ttl t0) (_memory_cache self)))
    by by apply dict_set_wf.
  apply dict_get_elem; [by apply set_wf|].
  rewrite set_memory, cleanup_closed_form by done. simpl.
  set (w := written key value ttl t0) in *.
  destruct (dict_set_split key w (_memory_cache self))
    as (l1 & l2 & Hitems & Hnone & Hsub).
  destruct (Hsub Hwf) as [Hsub' Hkey]. clear Hsub.
  rewrite Hitems. unfold survivors. rewrite filter_app, filter_cons_True by done.
  set (s1 := filter (λ kv, live t1 kv.2) l1).
  set (s2 := filter (λ kv, live t1 kv.2) l2).
  apply list_elem_of_filter. split; [|set_solver]. simpl.
  unfold lru_keys. case_decide as Hlen; [|apply not_elem_of_nil].
  assert (Hs1 : ∀ k e, (k, e) ∈ s1 → last_accessed e <= t0 ∧ k ≠ key).
  { intros k e [_ Hin]%list_elem_of_filter.
    assert (k ≠ key).
    { intros ->. apply Hkey. apply list_elem_of_fmap. exists (key, e).
      split; [done|]. apply elem_of_app. by left. }
    split; [|done].
    assert ((k, e) ∈ _memory_cache self) by (apply Hsub', elem_of_app; by left).
    destruct Hrecent as [Hr|[_ Hr]]; [|by eapply Hr].
    apply Z.lt_le_incl. by eapply Hr. }
  assert (Hs2 : ∀ k e, (k, e) ∈ s2 → last_accessed e < t0 ∧ k ≠ key).
  { intros k e [_ Hin]%list_elem_of_filter.
    assert (k ≠ key).
    { intros ->. apply Hkey. apply list_elem_of_fmap. exists (key, e).
      split; [done|]. apply elem_of_app. by right. }
    split; [|done].
    assert ((k, e) ∈ _memory_cache self) by (apply Hsub', elem_of_app; by right).
    destruct Hrecent as [Hr|[Hn _]]; [by eapply Hr|].
    destruct (Hnone Hn) as [_ ->]. by apply elem_of_nil in Hin. }
  unfold access_times. rewrite map_app. simpl.
  fold (access_times s1) (access_times s2).
  rewrite sorted_last.
  - rewrite length_app in *. simpl in *.
    unfold Py.slice_to. case_match eqn:Hneg; [|apply Z.leb_gt in Hneg; lia].
    rewrite take_app_le.
    2:{ rewrite length_sorted, length_app. unfold access_times.
        rewrite !length_map. lia. }
    intros (p & Hp & Hin)%list_elem_of_fmap.
    apply subseteq_take in Hin. rewrite elem_of_sorted in Hin.
    destruct p as [k a]. simpl in Hp. subst k.
    apply elem_of_app in Hin as [Hin|Hin];
      apply elem_of_access_times in Hin as (e & Hin & _).
    + by destruct (Hs1 _ _ Hin).
    + by destruct (Hs2 _ _ Hin).
  - apply Forall_forall. intros [k a] (e & Hin & ->)%elem_of_access_times.
    unfold by_last_accessed. simpl. destruct (Hs1 _ _ Hin). lia.
  - apply Forall_forall. intros [k a] (e & Hin & ->)%elem_of_access_times.
    unfold by_last_accessed. simpl. destruct (Hs2 _ _ Hin). lia.
Qed.

Lemma set_db self key value ttl persist t0 t1 io :
  db (set self key value ttl persist t0 t1 io)
  = if persist && io then
      <[key := {| row_value := Json.dumps false value; row_ttl := ttl;
                  row_created_at := t0; row_access_count := 0;
                  row_last_accessed := t0 |}]> (db self)
    else db self.
Proof. unfold set. by destruct (persist && io). Qed.

(** What survives [set] passed the liveness test of the sweep. *)
Lemma set_memory_live self key value ttl persist t0 t1 io k e :
  Py.dict_wf (_memory_cache self) →
  (k, e) ∈ _memory_cache (set self key value ttl persist t0 t1 io) →
  live t1 e.
Proof.
  intros Hwf Hin. rewrite set_memory in Hin.
  destruct (cleanup_spec
              (with_memory self
                 (Py.dict_set key (written key value ttl t0) (_memory_cache self)))
              t1) as (Hsub & _); [by apply dict_set_wf|].
  eapply sublist_subseteq in Hin; [|exact Hsub].
  by apply list_elem_of_filter in Hin as [? _].
Qed.

(** A lookup that finds nothing usable in the memory tier. *)
Lemma get_memory_miss self key now :
  (∀ e, Py.dict_get key (_memory_cache self) = Some e → ¬ live now e) →
  ∃ self', get_memory self key now = (None, self') ∧
    Py.dict_get key (_memory_cache self') = None ∧
    db self' = db self ∧
    max_memory_entries self' = max_memory_entries self.
Proof.
  intros Hdead. unfold get_memory.
  destruct (Py.dict_get key (_memory_cache self)) as [e|] eqn:Hget.
  - rewrite decide_False by by apply Hdead.
    eexists. split; [done|]. simpl. split; [apply dict_get_del_eq|done].
  - by exists self.
Qed.

(** C1. After every [set], the memory tier holds at most
    [max_memory_entries] entries (for a capacity that is not negative).
    The sweep inside [set] keeps only entries that pass the liveness test
    at its clock reading, in their order; it keeps all of them when they
    fit; and when they do not fit it keeps exactly [max_memory_entries] of
    them, every dropped one accessed no later than every kept one. *)
Theorem set_enforces_capacity self key value ttl persist t0 t1 io :
  Py.dict_wf (_memory_cache self) →
  0 <= max_memory_entries self →
  let items :=
    Py.dict_set key (written key value ttl t0) (_memory_cache self) in
  let live_items := survivors t1 items in
  let after := _memory_cache (set self key value ttl persist t0 t1 io) in
  Z.of_nat (length after) <= max_memory_entries self ∧
  after `sublist_of` live_items ∧
  (Z.of_nat (length live_items) <= max_memory_entries self →
   after = live_items) ∧
  (max_memory_entries self < Z.of_nat (length live_items) →
   Z.of_nat (length after) = max_memory_entries self ∧
   ∀ x y, x ∈ live_items → x ∉ after → y ∈ after →
          last_accessed x.2 <= last_accessed y.2).
Proof.
  intros Hwf Hmax items live_items after.
  destruct (cleanup_spec (with_memory self items) t1)
    as (Hsub & Hfit & Hover); [by apply dict_set_wf|].
  assert (Hafter : _memory_cache
            (_cleanup_memory_cache (with_memory self items) t1) = after)
    by (symmetry; apply set_memory).
  rewrite Hafter in Hsub, Hfit, Hover.
  change (_memory_cache (with_memory self items)) with items in *.
  change (max_memory_entries (with_memory self items))
    with (max_memory_entries self) in *.
  fold live_items in Hsub, Hfit, Hover.
  split_and!; [|done|done|intros; apply Hover; lia].
  destruct (decide (Z.of_nat (length live_items) <= max_memory_entries self))
    as [Hle|Hgt].
  - by rewrite Hfit.
  - destruct Hover as [-> _]; lia.
Qed.

(** The entry just written outlives the sweep when the entries that are
    live after the write fit the capacity: the sweep then drops nothing
    but what has run out. *)
Lemma written_fits self key value ttl persist t0 t1 io :
  Py.dict_wf (_memory_cache self) →
  t1 - t0 < ttl →
  Z.of_nat (length (survivors t1
                      (Py.dict_set key (written key value ttl t0)
                         (_memory_cache self))))
  <= max_memory_entries self →
  Py.dict_get key (_memory_cache (set self key value ttl persist t0 t1 io))
  = Some (written key value ttl t0).
Proof.
  intros Hwf Hlive Hfit.
  apply dict_get_elem; [by apply set_wf|].
  rewrite set_memory.
  destruct (cleanup_spec
              (with_memory self
                 (Py.dict_set key (written key value ttl t0) (_memory_cache self)))
              t1) as (_ & Hall & _); [by apply dict_set_wf|].
  rewrite Hall by exact Hfit.
  apply list_elem_of_filter. split; [exact Hlive|].
  apply dict_get_Some_elem, dict_get_set_eq.
Qed.

(** After a [set] that wrote through, a [get] within the lifetime finds the
    value in one tier or the other. *)
Lemma persisted_set_then_get self key value ttl t0 t1 t2 :
  Py.dict_wf (_memory_cache self) →
  t2 - t0 < ttl →
  json_loads (Json.dumps false value) = Some value →
  (get (set self key value ttl true t0 t1 true) key t2 true).1 = Some value.
Proof.
  intros Hwf Hlife Hparse. unfold get, get_memory.
  destruct (Py.dict_get key
              (_memory_cache (set self key value ttl true t0 t1 true)))
    as [e|] eqn:Hget.
  - apply set_memory_get in Hget; [|done]. subst e.
    rewrite decide_True; [done|]. unfold live. simpl. lia.
  - unfold get_persistent. rewrite set_db. simpl.
    rewrite lookup_insert_eq. simpl. by rewrite decide_True, Hparse.
Qed.

(** C3, as the code has it.  [set] followed by [get] before the entry's
    lifetime is over returns the value written in each of three cases.
    The entries of the memory tier that are live after the write, the new
    one among them, fit the capacity.  Or the capacity is at least one and
    the sweep inside [set] has no reason to prefer another entry: every
    other entry of the memory tier was accessed strictly before the write,
    or [key] is new and none was accessed after it.  Or the write went
    through to the persistent tier, which [get] can read and whose text
    parses back to the value. *)
Theorem set_then_get self key value ttl persist t0 t1 t2 io io' :
  Py.dict_wf (_memory_cache self) →
  0 < ttl →
  t1 <= t2 →
  t2 - t0 < ttl →
  (Z.of_nat (length (survivors t1
                       (Py.dict_set key (written key value ttl t0)
                          (_memory_cache self))))
   <= max_memory_entries self
   ∨ (1 <= max_memory_entries self ∧
      ((∀ k e, (k, e) ∈ _memory_cache self → k ≠ key →
               last_accessed e < t0) ∨
       (Py.dict_get key (_memory_cache self) = None ∧
        ∀ k e, (k, e) ∈ _memory_cache self → last_accessed e <= t0)))
   ∨ (persist = true ∧ io = true ∧ io' = true ∧
      json_loads (Json.dumps false value) = Some value)) →
  (get (set self key value ttl persist t0 t1 io) key t2 io').1 = Some value.
Proof.
  intros Hwf Httl Ht Hlife Hcase.
  assert (Hmem :
            Py.dict_get key
              (_memory_cache (set self key value ttl persist t0 t1 io))
            = Some (written key value ttl t0) →
            (get (set self key value ttl persist t0 t1 io) key t2 io').1
            = Some value).
  { intros Hget. unfold get, get_memory. rewrite Hget.
    rewrite decide_True; [done|]. unfold live. simpl. lia. }
  destruct Hcase as [Hfit|[[Hmax Hrecent]|(-> & -> & -> & Hparse)]].
  - apply Hmem, written_fits; [done|lia|done].
  - apply Hmem, written_survives; [done|done|lia|done].
  - by apply persisted_set_then_get.
Qed.

(** C2, as the code has it.  After [set] and a wait of at least [ttl], a
    [get] that can read the persistent tier returns nothing and leaves
    [key] in neither tier, so that [get_stats] counts only other keys,
    provided the write went through to the persistent tier or that tier
    holds no row for [key] that is still live. *)
Theorem expired_entry_is_gone self key value ttl persist t0 t1 t2 io :
  Py.dict_wf (_memory_cache self) →
  ttl <= t2 - t0 →
  ((persist = true ∧ io = true) ∨
   (∀ row, db self !! key = Some row →
           row_ttl row <= t2 - row_created_at row)) →
  let self1 := set self key value ttl persist t0 t1 io in
  let result := get self1 key t2 true in
  result.1 = None ∧
  Py.dict_get key (_memory_cache result.2) = None ∧
  db result.2 !! key = None ∧
  ∀ io', let stats := get_stats result.2 io' in
    memory_entries stats
    = Z.of_nat (length (filter (λ kv, kv.1 ≠ key) (_memory_cache result.2))) ∧
    ∀ ps, persistent_cache stats = Some ps →
          entries ps = Z.of_nat (size (delete key (db result.2))).
Proof.
  intros Hwf Hwait Hrow self1 result.
  assert (Hcore : result.1 = None ∧
            Py.dict_get key (_memory_cache result.2) = None ∧
            db result.2 !! key = None).
  { subst result. unfold get.
    destruct (get_memory_miss self1 key t2) as (selfm & -> & Hm & Hdb & _).
    { intros e He. apply set_memory_get in He; [|done]. subst e.
      unfold live. simpl. lia. }
    unfold get_persistent. rewrite Hdb. subst self1. rewrite set_db.
    destruct (persist && io) eqn:Hp.
    - rewrite lookup_insert_eq. simpl. rewrite decide_False by lia.
      split_and!; [done|exact Hm|]. apply lookup_delete_eq.
    - destruct Hrow as [[-> ->]|Hrow]; [done|].
      destruct (db self !! key) as [row|] eqn:Hlook.
      2:{ split_and!; [done|exact Hm|]. simpl. by rewrite Hdb, set_db, Hp. }
      rewrite decide_False by (specialize (Hrow row eq_refl); lia).
      split_and!; [done|exact Hm|]. apply lookup_delete_eq. }
  destruct Hcore as (Hr & Hm & Hd). split_and!; try done.
  intros io'. simpl. split.
  - f_equal. f_equal. symmetry.
    rewrite (filter_ext_elem _ (λ _, True)).
    + generalize (_memory_cache result.2). clear.
      induction l as [|x l IH]; [done|]. by rewrite filter_cons_True, IH.
    + intros [k e] Hin. simpl. split; [done|]. intros _ ->.
      apply dict_get_None in Hm. apply Hm.
      apply list_elem_of_fmap. by exists (key, e).
  - destruct io'; [|done]. intros ps [= <-]. simpl.
    by rewrite delete_id.
Qed.

(** C4. A key that is live in the persistent tier and absent from the
    memory tier: [get] returns the parsed stored value, and the memory
    tier then holds an entry for the key with the [created_at] and [ttl]
    of the row, so that it is live at exactly the times the row is. *)
Theorem get_promotes self key now row v :
  Py.dict_get key (_memory_cache self) = None →
  db self !! key = Some row →
  now - row_created_at row < row_ttl row →
  json_loads (row_value row) = Some v →
  let result := get self key now true in
  result.1 = Some v ∧
  ∃ e, Py.dict_get key (_memory_cache result.2) = Some e ∧
       value e = v ∧
       created_at e = row_created_at row ∧
       ttl e = row_ttl row ∧
       ∀ t, live t e ↔ t - row_created_at row < row_ttl row.
Proof.
  intros Hmem Hrow Hlive Hparse. simpl.
  unfold get, get_memory. rewrite Hmem.
  unfold get_persistent. rewrite Hrow, decide_True, Hparse by done. simpl.
  split; [done|]. eexists. split; [apply dict_get_set_eq|]. done.
Qed.

(** C5, as the code has it.  [set] has no failure result.  With a [ttl]
    that is not positive the entry does not outlive the sweep of the same
    call in the memory tier, but with [persist] the row is written to the
    persistent tier with that [ttl]; no later [get] serves it. *)
Theorem set_nonpositive_ttl self key value ttl persist t0 t1 io :
  Py.dict_wf (_memory_cache self) →
  ttl <= 0 →
  t0 <= t1 →
  let self' := set self key value ttl persist t0 t1 io in
  Py.dict_get key (_memory_cache self') = None ∧
  (persist = true → io = true →
   db self' !! key
   = Some {| row_value := Json.dumps false value; row_ttl := ttl;
             row_created_at := t0; row_access_count := 0;
             row_last_accessed := t0 |} ∧
   ∀ t2 io', t0 <= t2 → (get self' key t2 io').1 = None).
Proof.
  intros Hwf Httl Ht self'.
  assert (Hmem : Py.dict_get key (_memory_cache self') = None).
  { destruct (Py.dict_get key (_memory_cache self')) as [e|] eqn:Hget; [|done].
    assert (He := Hget). apply set_memory_get in He; [|done]. subst e.
    apply dict_get_Some_elem, set_memory_live in Hget; [|done].
    unfold live in Hget. simpl in Hget. lia. }
  split; [done|]. intros -> ->.
  assert (Hdb : db self' !! key
                = Some {| row_value := Json.dumps false value; row_ttl := ttl;
                          row_created_at := t0; row_access_count := 0;
                          row_last_accessed := t0 |}).
  { subst self'. rewrite set_db. simpl. apply lookup_insert_eq. }
  split; [done|]. intros t2 io' Ht2.
  unfold get, get_memory. rewrite Hmem. unfold get_persistent.
  destruct io'; [|done]. rewrite Hdb. simpl.
  by rewrite decide_False by lia.
Qed.

(** C6, as the code has it.  The memory-tier lookup of [get] serves an
    entry only if it is live; an entry found expired is deleted from the
    memory tier by the lookup itself, the other entries staying as they
    are. *)
Theorem memory_lookup_deletes_expired self key now :
  let result := get_memory self key now in
  (∀ v, result.1 = Some v →
        ∃ e, Py.dict_get key (_memory_cache self) = Some e ∧
             now - created_at e < ttl e ∧ v = value e) ∧
  (∀ e, Py.dict_get key (_memory_cache self) = Some e →
        ¬ (now - created_at e < ttl e) →
        result.1 = None ∧
        _memory_cache result.2 = Py.dict_del key (_memory_cache self) ∧
        Py.dict_get key (_memory_cache result.2) = None ∧
        ∀ k, k ≠ key →
             Py.dict_get k (_memory_cache result.2)
             = Py.dict_get k (_memory_cache self)).
Proof.
  simpl. unfold get_memory.
  destruct (Py.dict_get key (_memory_cache self)) as [e|] eqn:Hget.
  - destruct (decide (live now e)) as [Hlive|Hdead]; simpl.
    + split.
      * intros v [= <-]. by exists e.
      * intros e' [= <-] Hn. done.
    + split; [done|]. intros e' [= <-] _.
      split_and!; [done|done|apply dict_get_del_eq|].
      intros k Hk. by apply dict_get_del_ne.
  - split; [done|]. done.
Qed.

End CacheFacts.

(** ** The cache coordinator on examples *)

Section CacheExamples.
Import CacheService.
Existing Instance example_runtime.

Lemma crowded_wf : Py.dict_wf (_memory_cache crowded).
Proof. by apply (bool_decide_unpack _). Qed.

Lemma crowded_accessed_before k e :
  (k, e) ∈ _memory_cache crowded → last_accessed e < 10.
Proof.
  unfold crowded, example_entry. simpl. intros Hin.
  repeat (rewrite elem_of_cons in Hin; destruct Hin as [[= -> ->]|Hin];
          [simpl; lia|]).
  by apply elem_of_nil in Hin.
Qed.

(** Writing [d] at time 10 sweeps out [c], which has run out, and [b],
    the least recently accessed of the rest. *)
Lemma set_enforces_capacity_witness :
  Py.dict_wf (_memory_cache crowded) ∧
  0 <= max_memory_entries crowded ∧
  Z.of_nat (length (_memory_cache
                      (set crowded "d" (JStr "vd") 60 false 10 10 true)))
  <= max_memory_entries crowded.
Proof.
  split; [exact crowded_wf|]. split; [simpl; lia|].
  destruct (set_enforces_capacity crowded "d" (JStr "vd") 60 false 10 10 true)
    as [Hcap _]; [exact crowded_wf|simpl; lia|exact Hcap].
Defined.

Lemma set_then_get_witness :
  (get (set crowded "d" (JStr "vd") 60 false 10 10 true) "d" 20 true).1
  = Some (JStr "vd").
Proof.
  apply (set_then_get crowded "d" (JStr "vd") 60 false 10 10 20 true true).
  - exact crowded_wf.
  - lia.
  - lia.
  - lia.
  - right. left. split; [simpl; lia|].
    left. intros k e Hin _. exact (crowded_accessed_before k e Hin).
Defined.

(** C3 fails on the code.  With no capacity the sweep inside [set] evicts
    the entry just written; and with capacity one, after a promotion has
    brought the memory tier above its capacity, a write to the older key
    [b] at the clock reading of that promotion loses the tie to [a]. *)
Lemma set_then_get_counterexample :
  (get (set (init 0) "k" (JStr "v") 60 false 0 0 true) "k" 0 true).1 = None ∧
  let s1 := set (init 1) "a" (JStr "va") 100 true 0 0 true in
  let s2 := set s1 "b" (JStr "vb") 100 false 0 0 true in
  let s3 := (get s2 "a" 1 true).2 in
  (get (set s3 "b" (JStr "v") 100 false 1 1 true) "b" 1 true).1 = None.
Proof. split; vm_compute; reflexivity. Qed.

Lemma expired_entry_is_gone_witness :
  let result :=
    get (set (init 1000) "k" (JStr "v") 10 true 0 0 true) "k" 10 true in
  result.1 = None ∧ db result.2 !! "k" = None.
Proof.
  destruct (expired_entry_is_gone (init 1000) "k" (JStr "v") 10 true 0 0 10 true)
    as (Hr & _ & Hd & _).
  - by apply (bool_decide_unpack _).
  - lia.
  - by left.
  - split; [exact Hr|exact Hd].
Defined.

(** C2 fails on the code.  A write without [persist] leaves an older row
    of the persistent tier in place; once the new entry has run out, [get]
    serves the older value and both tiers count the key. *)
Lemma expired_entry_counterexample :
  let s1 := set (init 1000) "k" (JStr "old") 1000 true 0 0 true in
  let s2 := set s1 "k" (JStr "new") 10 false 0 0 true in
  let result := get s2 "k" 10 true in
  result.1 = Some (JStr "old") ∧
  memory_entries (get_stats result.2 true) = 1 ∧
  entries <$> persistent_cache (get_stats result.2 true) = Some 1.
Proof. vm_compute. done. Qed.

Lemma get_promotes_witness :
  let result := get evicted "k" 50 true in
  result.1 = Some (JStr "hello") ∧
  ∃ e, Py.dict_get "k" (_memory_cache result.2) = Some e ∧
       created_at e = 0 ∧ ttl e = 100.
Proof.
  destruct (get_promotes evicted "k" 50
              {| row_value := Json.dumps false (JStr "hello"); row_ttl := 100;
                 row_created_at := 0; row_access_count := 0;
                 row_last_accessed := 0 |} (JStr "hello"))
    as (Hr & e & He & _ & Hc & Ht & _).
  - reflexivity.
  - reflexivity.
  - simpl. lia.
  - reflexivity.
  - split; [exact Hr|]. exists e. split_and!; [exact He|exact Hc|exact Ht].
Defined.

Lemma set_nonpositive_ttl_witness :
  Py.dict_get "k"
    (_memory_cache (set (init 1000) "k" (JStr "v") (-5) true 7 7 true)) = None.
Proof.
  destruct (set_nonpositive_ttl (init 1000) "k" (JStr "v") (-5) true 7 7 true)
    as [Hm _].
  - by apply (bool_decide_unpack _).
  - lia.
  - lia.
  - exact Hm.
Defined.

(** C5 fails on the code.  [set] with [ttl = 0] and [persist] returns as
    usual and the persistent tier holds the row with that [ttl]. *)
Lemma set_nonpositive_ttl_counterexample :
  db (set (init 1000) "k" (JStr "v") 0 true 5 5 true) !! "k"
  = Some {| row_value := Json.dumps false (JStr "v"); row_ttl := 0;
            row_created_at := 5; row_access_count := 0;
            row_last_accessed := 5 |}.
Proof. vm_compute. reflexivity. Qed.

Lemma memory_lookup_deletes_expired_witness :
  (get_memory stale "k" 10).1 = None ∧
  _memory_cache (get_memory stale "k" 10).2 = [].
Proof.
  destruct (memory_lookup_deletes_expired stale "k" 10) as [_ Hexp].
  destruct (Hexp (example_entry "k" (JStr "v") 10 0 0).2) as (Hr & Hm & _).
  - reflexivity.
  - simpl. lia.
  - split; [exact Hr|exact Hm].
Defined.

(** C6 fails on the code.  Looking up an entry that has run out changes
    the memory tier: the entry is no longer there. *)
Lemma memory_lookup_counterexample :
  (∃ e, Py.dict_get "k" (_memory_cache stale) = Some e ∧
        ¬ (10 - created_at e < ttl e)) ∧
  _memory_cache (get_memory stale "k" 10).2 ≠ _memory_cache stale.
Proof.
  split.
  - eexists. split; [reflexivity|]. simpl. lia.
  - vm_compute. discriminate.
Qed.

End CacheExamples.

(** ** Ranking *)

Section RankFacts.
Context `{Runtime}.
Import MemoryManager.

Lemma count_from_zero sub s :
  Py.count_from 0 sub s = 0%nat ↔ Py.contains sub s = false.
Proof.
  induction s as [|c s IH]; cbn [Py.count_from Py.contains].
  - destruct (String.prefix sub EmptyString); simpl; split; done.
  - destruct (String.prefix sub (String c s)); simpl; [split; done|exact IH].
Qed.

Lemma count_absent s sub : Py.contains sub s = false → Py.count s sub = 0.
Proof. intros Hc. unfold Py.count. by apply count_from_zero in Hc as ->. Qed.

Lemma count_present s sub : Py.contains sub s = true → 0 < Py.count s sub.
Proof.
  intros Hc. unfold Py.count.
  destruct (Py.count_from 0 sub s) eqn:Hn; [|lia].
  apply count_from_zero in Hn. congruence.
Qed.

Lemma count_nonneg s sub : 0 <= Py.count s sub.
Proof. unfold Py.count. lia. Qed.

(** The accumulated score is the sum the specification writes. *)
Lemma score_loop memory_lower (words : list string) (acc : Z) :
  foldl (λ score word,
           if decide (2 < str_len word)
           then score + Py.count memory_lower word * str_len word
           else score) acc words
  = acc + foldr Z.add 0
            (map (λ w, Py.count memory_lower w * str_len w)
               (filter (λ w, 2 < str_len w ∧ Py.contains w memory_lower = true)
                  words)).
Proof.
  revert acc. induction words as [|w words IH]; intros acc; simpl; [lia|].
  rewrite IH, filter_cons.
  destruct (decide (2 < str_len w)) as [Hlen|Hlen].
  - destruct (Py.contains w memory_lower) eqn:Hc.
    + rewrite decide_True by done. simpl. lia.
    + rewrite decide_False by (intros [_ ?]; done).
      rewrite (count_absent _ _ Hc). lia.
  - rewrite decide_False by (intros [? _]; done). done.
Qed.

Lemma score_spec query memory : score query memory = spec_score query memory.
Proof. unfold score, spec_score, matching_words. apply score_loop. Qed.

Lemma score_zero query memory :
  (∀ w, w ∈ str_split (str_lower query) → 2 < str_len w →
        Py.contains w (str_lower memory) = false) →
  score query memory = 0.
Proof.
  intros Hno. rewrite score_spec. unfold spec_score, matching_words.
  rewrite (filter_ext_elem _ (λ _, False)).
  - generalize (query_words query). clear.
    induction l as [|w l IH]; [done|]. by rewrite filter_cons_False by tauto.
  - intros w Hw. unfold query_words in Hw. rewrite elem_of_remove_dups in Hw.
    split; [|done]. intros [Hlen Hc]. rewrite (Hno w Hw Hlen) in Hc. done.
Qed.

Lemma score_positive query memory w :
  w ∈ str_split (str_lower query) → 2 < str_len w →
  Py.contains w (str_lower memory) = true →
  0 < score query memory.
Proof.
  intros Hw Hlen Hc. rewrite score_spec. unfold spec_score, matching_words.
  assert (Hin : w ∈ query_words query)
    by (unfold query_words; by rewrite elem_of_remove_dups).
  revert Hin. generalize (query_words query).
  set (P := λ w, 2 < str_len w ∧ Py.contains w (str_lower memory) = true).
  assert (Hnn : ∀ l' : list string, 0 <= foldr Z.add 0
            (map (λ w, Py.count (str_lower memory) w * str_len w)
               (filter P l'))).
  { induction l' as [|x l' IH']; simpl; [lia|].
    rewrite filter_cons. case_decide as Hx; [|done]. simpl.
    destruct Hx as [Hx _].
    pose proof (count_nonneg (str_lower memory) x). nia. }
  induction l as [|w' l IH]; [by intros ?%elem_of_nil|].
  rewrite elem_of_cons, filter_cons. intros [<-|Hin].
  - rewrite decide_True by done. simpl.
    pose proof (count_present _ _ Hc). specialize (Hnn l). nia.
  - specialize (IH Hin). case_decide as Hx; [|done]. simpl.
    destruct Hx as [Hx _].
    pose proof (count_nonneg (str_lower memory) w'). nia.
Qed.

Lemma scored_sorted (f : string → Z) (l : list (string * Z)) :
  Forall (λ p, p.2 = f p.1) l →
  StronglySorted (λ a b : string * Z, (b.2 <=? a.2) = true) l →
  StronglySorted (λ a b, f b <= f a) (l.*1).
Proof.
  intros Hf. induction 1 as [|p l Hl IH Hp]; [constructor|].
  apply Forall_cons in Hf as [Hfp Hf]. rewrite fmap_cons.
  constructor; [by apply IH|].
  apply Forall_fmap, Forall_forall. intros q Hq.
  rewrite Forall_forall in Hp, Hf. specialize (Hp q Hq). specialize (Hf q Hq).
  simpl in *. rewrite <- Hfp, <- Hf. lia.
Qed.

Lemma StronglySorted_filter {A} (R : relation A) (P : A → Prop)
    `{!∀ x, Decision (P x)} (l : list A) :
  StronglySorted R l → StronglySorted R (filter P l).
Proof.
  induction 1 as [|x l Hl IH Hx]; [constructor|].
  rewrite filter_cons. case_decide; [|done].
  constructor; [done|].
  apply Forall_forall. intros y [_ Hy]%list_elem_of_filter.
  rewrite Forall_forall in Hx. by apply Hx.
Qed.

Lemma elem_of_rank memories query m :
  m ∈ _rank_memories_by_relevance memories query
  ↔ m ∈ memories ∧ 0 < score query m.
Proof.
  unfold _rank_memories_by_relevance. rewrite list_elem_of_fmap. split.
  - intros ([m' sc] & -> & [Hpos Hin]%list_elem_of_filter).
    rewrite elem_of_sorted, map_fmap in Hin.
    apply list_elem_of_fmap in Hin as (m & [= -> ->] & Hin). done.
  - intros [Hin Hpos]. exists (m, score query m). split; [done|].
    apply list_elem_of_filter. split; [done|].
    rewrite elem_of_sorted, map_fmap.
    apply list_elem_of_fmap. by exists m.
Qed.

(** The score of an ASCII fragment for the query of the example. *)
Lemma example_score memory :
  ascii_runtime →
  AsciiStr.is_ascii memory = true →
  score "hiking mountains" memory
  = Py.count (AsciiStr.lower memory) "hiking" * 6
    + Py.count (AsciiStr.lower memory) "mountains" * 9.
Proof.
  intros Hascii Hmem. unfold score, query_words.
  destruct (Hascii "hiking mountains" eq_refl) as (-> & _ & _).
  destruct (Hascii (AsciiStr.lower "hiking mountains") eq_refl)
    as (_ & -> & _).
  destruct (Hascii memory Hmem) as (-> & _ & _).
  destruct (Hascii "hiking" eq_refl) as (_ & _ & Hlen1).
  destruct (Hascii "mountains" eq_refl) as (_ & _ & Hlen2).
  change (remove_dups (AsciiStr.split (AsciiStr.lower "hiking mountains")))
    with ["hiking"; "mountains"].
  cbn [foldl]. rewrite Hlen1, Hlen2.
  change (AsciiStr.len "hiking") with 6.
  change (AsciiStr.len "mountains") with 9.
  rewrite !decide_True by lia. lia.
Qed.

(** C7. A fragment in which no query word longer than two characters
    occurs (case ignored) is not in the result; the score is the sum over
    the matching query words of occurrences times length; the result holds
    the fragments of positive score, in descending order of score; and the
    example of the specification comes out as stated.  The words of the
    query, lower case and length are what [str.split], [str.lower] and
    [len] make them, for text of any script; the example, which is ASCII
    text, needs these methods to do on ASCII text what Python's do. *)
Theorem rank_memories_by_relevance_correct memories query :
  let result := _rank_memories_by_relevance memories query in
  (∀ m, (∀ w, w ∈ str_split (str_lower query) → 2 < str_len w →
              Py.contains w (str_lower m) = false) →
        m ∉ result) ∧
  (∀ m, score query m = spec_score query m) ∧
  (∀ m, m ∈ result ↔ m ∈ memories ∧ 0 < score query m) ∧
  (∀ m w, m ∈ memories → w ∈ str_split (str_lower query) → 2 < str_len w →
          Py.contains w (str_lower m) = true → m ∈ result) ∧
  StronglySorted (λ a b, score query b <= score query a) result ∧
  (ascii_runtime →
   _rank_memories_by_relevance
     ["I love hiking in mountains"; "I love cats"; "hiking is fun"]
     "hiking mountains"
   = ["I love hiking in mountains"; "hiking is fun"]).
Proof.
  simpl. split_and!.
  - intros m Hno [_ Hpos]%elem_of_rank. rewrite score_zero in Hpos by done. lia.
  - apply score_spec.
  - apply elem_of_rank.
  - intros m w Hm Hw Hlen Hc. apply elem_of_rank. split; [done|].
    by eapply score_positive.
  - unfold _rank_memories_by_relevance.
    apply scored_sorted.
    + apply Forall_forall. intros [m sc] [_ Hin]%list_elem_of_filter.
      rewrite elem_of_sorted, map_fmap in Hin.
      by apply list_elem_of_fmap in Hin as (m' & [= -> ->] & Hin).
    + apply StronglySorted_filter, sorted_ordered; intros; lia.
  - intros Hascii. unfold _rank_memories_by_relevance. cbn [map].
    rewrite !(example_score _ Hascii) by reflexivity.
    vm_compute. reflexivity.
Qed.

End RankFacts.

Section RankExamples.
Import MemoryManager.
Existing Instance example_runtime.

Lemma example_ascii_runtime : ascii_runtime.
Proof. intros s _. by split_and!. Qed.

Lemma rank_memories_by_relevance_witness :
  ("I love cats" ∉ _rank_memories_by_relevance
     ["I love hiking in mountains"; "I love cats"; "hiking is fun"]
     "hiking mountains")
  ∧ _rank_memories_by_relevance
      ["I love hiking in mountains"; "I love cats"; "hiking is fun"]
      "hiking mountains"
    = ["I love hiking in mountains"; "hiking is fun"].
Proof.
  destruct (rank_memories_by_relevance_correct
              ["I love hiking in mountains"; "I love cats"; "hiking is fun"]
              "hiking mountains") as (Hexcl & _ & _ & _ & _ & Hexample).
  split; [|exact (Hexample example_ascii_runtime)].
  apply Hexcl. intros w Hw _.
  change (str_split (str_lower "hiking mountains"))
    with ["hiking"; "mountains"] in Hw.
  rewrite !elem_of_cons in Hw.
  destruct Hw as [->|[->|Hw]]; [reflexivity|reflexivity|].
  by apply elem_of_nil in Hw.
Defined.

End RankExamples.

(** ** Key derivation *)

Section KeyFacts.
Context `{Runtime}.

Lemma json_ind_strong (P : json → Prop) :
  P JNull → (∀ b, P (JBool b)) → (∀ n, P (JInt n)) → (∀ s, P (JStr s)) →
  (∀ l, Forall P l → P (JList l)) →
  (∀ d, Forall (λ kv, P kv.2) d → P (JDict d)) →
  ∀ j, P j.
Proof.
  intros Hnull Hbool Hint Hstr Hlist Hdict.
  fix IH 1. intros [|b|n|s|l|d].
  - exact Hnull.
  - apply Hbool.
  - apply Hint.
  - apply Hstr.
  - apply Hlist. revert l. fix IHl 1.
    intros [|x l]; constructor; [apply IH|apply IHl].
  - apply Hdict. revert d. fix IHd 1.
    intros [|[k v] d]; constructor; [apply IH|apply IHd].
Qed.

Lemma key_le_total {A} (x y : string * A) :
  Json.key_le x y = false → Json.key_le y x = true.
Proof.
  unfold Json.key_le. intros Hxy.
  destruct (String.leb_total x.1 y.1) as [Hle|Hle]; congruence.
Qed.

Lemma key_le_trans {A} (x y z : string * A) :
  Json.key_le x y = true → Json.key_le y z = true → Json.key_le x z = true.
Proof.
  unfold Json.key_le. intros Hxy%Is_true_true Hyz%Is_true_true.
  apply Is_true_true. change (String.le x.1 z.1).
  by etrans; [exact Hxy|exact Hyz].
Qed.

Lemma key_le_antisym {A} (x y : string * A) :
  Json.key_le x y = true → Json.key_le y x = true → x.1 = y.1.
Proof. unfold Json.key_le. apply String.leb_antisym. Qed.

(** Ordering by key is canonical on dictionaries. *)
Lemma sorted_key_le_perm {A} (l l' : list (string * A)) :
  NoDup (l.*1) → l ≡ₚ l' →
  Py.sorted Json.key_le l = Py.sorted Json.key_le l'.
Proof.
  intros Hnd Hperm.
  apply (StronglySorted_unique_strong (λ a b, Json.key_le a b = true)).
  - intros x1 x2 Hx1 Hx2 H12 H21.
    rewrite elem_of_sorted in Hx1, Hx2. rewrite <- Hperm in Hx2.
    pose proof (key_le_antisym _ _ H12 H21) as Hk.
    destruct x1 as [k1 v1], x2 as [k2 v2]. simpl in Hk. subst k2.
    apply (dict_get_elem _ _ _ Hnd) in Hx1, Hx2. congruence.
  - apply sorted_ordered; [apply key_le_total|apply key_le_trans].
  - apply sorted_ordered; [apply key_le_total|apply key_le_trans].
  - by rewrite !sorted_perm.
Qed.

(** Ordering commutes with a map that leaves the order alone. *)
Lemma sorted_map {A B} (before : A → A → bool) (before' : B → B → bool)
    (g : A → B) (l : list A) :
  (∀ x y, before' (g x) (g y) = before x y) →
  map g (Py.sorted before l) = Py.sorted before' (map g l).
Proof.
  intros Hg. induction l as [|x l IH]; [done|].
  change (map g (Py.insert_sorted before x (Py.sorted before l))
          = Py.insert_sorted before' (g x) (Py.sorted before' (map g l))).
  rewrite <- IH. generalize (Py.sorted before l). clear IH.
  induction l0 as [|y l0 IH]; [done|]. simpl.
  rewrite Hg. destruct (before x y); simpl; by rewrite ?IH.
Qed.

Lemma map_ext_Forall {A B} (f g : A → B) (l : list A) :
  Forall (λ x, f x = g x) l → map f l = map g l.
Proof. induction 1; simpl; congruence. Qed.

(** [sort_keys=True] renders the canonical form. *)
Lemma dumps_canonical j :
  Json.dumps true j = Json.dumps false (Json.canonical j).
Proof.
  induction j as [|b|n|s|l IH|d IH] using json_ind_strong; try done.
  - simpl. do 3 f_equal. rewrite map_map. by apply map_ext_Forall.
  - simpl. do 4 f_equal.
    rewrite (sorted_map Json.key_le Json.key_le) by (by intros [??] [??]).
    f_equal. rewrite map_map. apply map_ext_Forall.
    eapply Forall_impl; [exact IH|]. intros [k v] Hv. simpl in *. by rewrite Hv.
Qed.

Lemma canonical_keys_sorted j : Json.keys_sorted (Json.canonical j).
Proof.
  induction j as [|b|n|s|l IH|d IH] using json_ind_strong;
    simpl; try by constructor.
  - constructor. rewrite map_fmap. by apply Forall_fmap.
  - constructor.
    + apply sorted_ordered; [apply key_le_total|apply key_le_trans].
    + apply Forall_forall. intros kv Hkv.
      rewrite elem_of_sorted, map_fmap in Hkv.
      apply list_elem_of_fmap in Hkv as ([k v] & -> & Hin).
      rewrite Forall_forall in IH. by apply (IH (k, v)).
Qed.

(** Structurally equal payloads have the same canonical form. *)
Lemma canonical_equal j1 :
  ∀ j2, Json.wf j1 → Json.equal j1 j2 → Json.canonical j1 = Json.canonical j2.
Proof.
  induction j1 as [|b|n|s|l IH|d IH] using json_ind_strong;
    intros j2 Hwf Heq; inversion Heq; subst; try done.
  - simpl. f_equal. inversion Hwf as [| | | |? Hwfl|]; subst.
    match goal with Hall : Forall2 Json.equal _ _ |- _ =>
      induction Hall as [|x y l l' Hxy Hall IHall] end; [done|].
    apply Forall_cons in IH as [IHx IH].
    apply Forall_cons in Hwfl as [Hwfx Hwfl].
    simpl. f_equal; [by apply IHx|]. apply IHall; try done.
    + by constructor.
    + by constructor.
  - simpl. f_equal. inversion Hwf as [| | | | |? Hnd Hwfd]; subst.
    match goal with Hp : d ≡ₚ ?d1', Hall : Forall2 _ ?d1' _ |- _ =>
      rename Hp into Hperm; rename Hall into Hall2 end.
    set (c := λ '(k, v), (k, Json.canonical v) : string * json).
    etrans.
    + apply sorted_key_le_perm.
      * replace ((map c d).*1) with (d.*1); [done|].
        clear. induction d as [|[k v] d IHd]; [done|]. cbn. cbn in IHd.
        by rewrite IHd.
      * apply Permutation_map. exact Hperm.
    + f_equal. rewrite Hperm in IH, Hwfd. clear Hperm Hnd Heq Hwf.
      induction Hall2 as [|[k v] [k' v'] l l' [Hk Hv] Hall IHall]; [done|].
      apply Forall_cons in IH as [IHx IH].
      apply Forall_cons in Hwfd as [Hwfx Hwfd].
      simpl in *. subst k'. f_equal; [|by apply IHall].
      f_equal. by apply IHx.
Qed.

(** C9. Structurally equal payloads, the items of a dictionary in any
    order, get the same key; and a key is the prefix, a colon and the
    digest of the payload's canonical text, in which every dictionary
    lists its keys in ascending order. *)
Theorem generate_key_deterministic prefix data :
  (∀ data', Json.wf data → Json.equal data data' →
            CacheService._generate_key prefix data
            = CacheService._generate_key prefix data') ∧
  CacheService._generate_key prefix data
  = prefix +:+ ":" +:+ md5_hexdigest (Json.dumps false (Json.canonical data)) ∧
  Json.keys_sorted (Json.canonical data).
Proof.
  split_and!.
  - intros data' Hwf Heq. unfold CacheService._generate_key.
    by rewrite !dumps_canonical, (canonical_equal data data').
  - unfold CacheService._generate_key. by rewrite dumps_canonical.
  - apply canonical_keys_sorted.
Qed.

End KeyFacts.

Lemma generate_key_deterministic_witness :
  @CacheService._generate_key example_runtime "llm"
    (JDict [("user_input", JStr "hi"); ("system_prompt", JStr "be kind")])
  = @CacheService._generate_key example_runtime "llm"
      (JDict [("system_prompt", JStr "be kind"); ("user_input", JStr "hi")]).
Proof.
  destruct (@generate_key_deterministic example_runtime "llm"
              (JDict [("user_input", JStr "hi");
                      ("system_prompt", JStr "be kind")])) as [Hdet _].
  apply Hdet.
  - constructor.
    + by apply (bool_decide_unpack _).
    + repeat constructor.
  - eapply Json.equal_dict.
    + apply perm_swap.
    + repeat constructor.
Defined.

(** ** The retriever and its cache *)

Section RetrieverFacts.
Context `{Runtime}.
Import MemoryManager.

(** *** The cache key determines the limit *)

Lemma pretty_N_go_no_underscore x s :
  no_underscore s → no_underscore (pretty_N_go x s).
Proof.
  revert s. induction (N.lt_wf_0 x) as [x _ IH]. intros s Hs.
  destruct (decide (x = 0)%N) as [->|Hx].
  - by rewrite pretty_N_go_0.
  - rewrite pretty_N_go_step by lia. apply IH.
    + apply N.div_lt; lia.
    + split; [|done]. unfold pretty_N_char. by repeat case_match.
Qed.

Lemma pretty_N_no_underscore (x : N) : no_underscore (pretty x).
Proof.
  unfold pretty, pretty_N. case_decide; [simpl; split; [discriminate|done]|].
  by apply pretty_N_go_no_underscore.
Qed.

Lemma pretty_Z_no_underscore (x : Z) : no_underscore (pretty x).
Proof.
  unfold pretty, pretty_Z. destruct x as [|p|p].
  - simpl. split; [discriminate|done].
  - apply pretty_N_no_underscore.
  - split; [discriminate|]. apply pretty_N_no_underscore.
Qed.

Lemma app_underscore_inj a a' b b' :
  no_underscore a → no_underscore a' →
  a +:+ String "_" b = a' +:+ String "_" b' → a = a' ∧ b = b'.
Proof.
  revert a'. induction a as [|c a IH]; intros [|c' a'] Ha Ha' Heq;
    simpl in *.
  - by simplify_eq.
  - destruct Ha' as [Hc _]. by simplify_eq.
  - destruct Ha as [Hc _]. by simplify_eq.
  - destruct Ha as [_ Ha], Ha' as [_ Ha']. injection Heq as -> Heq.
    destruct (IH a' Ha Ha' Heq) as [-> ->]. done.
Qed.

Lemma cache_key_limit query query' limit limit' :
  cache_key query limit = cache_key query' limit' → limit = limit'.
Proof.
  unfold cache_key. intros Heq.
  apply (inj (String.app "memories_")) in Heq.
  apply app_underscore_inj in Heq as [_ Heq];
    [|apply pretty_Z_no_underscore..].
  by apply (inj pretty) in Heq.
Qed.

(** *** Limits of zero and one *)

Lemma compute_small_limit self query limit now :
  0 <= limit <= 1 → (compute_relevant_memories self query limit now).1 = [].
Proof.
  intros Hl. unfold compute_relevant_memories.
  assert (limit `div` 2 = 0) as -> by (apply Z.div_small; lia).
  unfold _extract_current_session_memories, _extract_historical_memories.
  destruct (ChatHistoryManager.get_session_messages _ _) as [messages chm].
  simpl.
  destruct (scan_files _ _ _ _ _) as [hist chm']. simpl.
  unfold _rank_memories_by_relevance. simpl.
  unfold Py.slice_to. case_match; apply take_nil.
Qed.

Lemma init_small_limits_empty chm : small_limits_empty (init chm).
Proof.
  intros query limit cd _ Hlook. simpl in Hlook.
  by rewrite lookup_empty in Hlook.
Qed.

Lemma extract_current_memory_cache self query limit :
  memory_cache (_extract_current_session_memories self query limit).2
  = memory_cache self.
Proof.
  unfold _extract_current_session_memories.
  by destruct (ChatHistoryManager.get_session_messages _ _).
Qed.

Lemma extract_historical_memory_cache self query limit :
  memory_cache (_extract_historical_memories self query limit).2
  = memory_cache self.
Proof.
  unfold _extract_historical_memories.
  destruct (ChatHistoryManager.get_history_files _ _) as [files chm].
  by destruct (scan_files _ _ _ _ _).
Qed.

(** What a computing call leaves in the cache. *)
Lemma compute_memory_cache self query limit now :
  memory_cache (compute_relevant_memories self query limit now).2
  = <[cache_key query limit :=
        {| memories := (compute_relevant_memories self query limit now).1;
           timestamp := now |}]> (memory_cache self).
Proof.
  unfold compute_relevant_memories.
  pose proof (extract_current_memory_cache self query (limit `div` 2)) as H1.
  destruct (_extract_current_session_memories _ _ _) as [cur self1].
  pose proof (extract_historical_memory_cache self1 query (limit `div` 2)) as H2.
  destruct (_extract_historical_memories _ _ _) as [hist self2].
  simpl in *. by rewrite H2, H1.
Qed.

Lemma get_relevant_memories_small_limits_empty self query limit t t' :
  small_limits_empty self →
  small_limits_empty (get_relevant_memories self query limit t t').2.
Proof.
  intros Hinv. unfold get_relevant_memories.
  assert (Hcomp : small_limits_empty
            (compute_relevant_memories self query limit t').2).
  { intros q l cd Hl Hlook. rewrite compute_memory_cache in Hlook.
    destruct (decide (cache_key query limit = cache_key q l)) as [Heq|Hne].
    - rewrite Heq, lookup_insert_eq in Hlook. injection Hlook as <-. simpl.
      apply cache_key_limit in Heq. subst l. by apply compute_small_limit.
    - rewrite lookup_insert_ne in Hlook by done. by eapply Hinv. }
  destruct (memory_cache self !! cache_key query limit) as [cd|]; [|done].
  by case_decide.
Qed.

(** C10, as the code has it.  With a limit of zero or one both sources
    are cut to [limit // 2 = 0] fragments and the result is empty,
    whatever matches; a cached result for such a limit is empty as well,
    which [small_limits_empty] records and every call maintains. *)
Theorem small_limit_returns_nothing self query limit now_check now_store :
  0 <= limit <= 1 →
  small_limits_empty self →
  (get_relevant_memories self query limit now_check now_store).1 = [] ∧
  small_limits_empty
    (get_relevant_memories self query limit now_check now_store).2.
Proof.
  intros Hl Hinv. split;
    [|by apply get_relevant_memories_small_limits_empty].
  unfold get_relevant_memories.
  destruct (memory_cache self !! cache_key query limit) as [cd|] eqn:Hlook;
    [|by apply compute_small_limit].
  case_decide; [|by apply compute_small_limit].
  simpl. by eapply Hinv.
Qed.

(** C8, as the code has it.  The ranked list is kept in the manager's own
    [memory_cache] under [cache_key query limit]; the cache service of the
    application is not touched.  While the cached timestamp is less than
    [cache_expiry] old, a further call returns the same list and leaves
    the whole state, the call count of the chat history manager included,
    as it is. *)
Theorem relevant_memories_cached app query limit now_check now_store :
  let first :=
    WebApp.get_relevant_memories app query limit now_check now_store in
  WebApp.cache_service first.2 = WebApp.cache_service app ∧
  ∃ cache_data,
    memory_cache (WebApp.memory_manager first.2) !! cache_key query limit
    = Some cache_data ∧
    memories cache_data = first.1 ∧
    ∀ t2 t2',
      t2 - timestamp cache_data < cache_expiry (WebApp.memory_manager first.2) →
      let second := WebApp.get_relevant_memories first.2 query limit t2 t2' in
      second.1 = first.1 ∧
      second.2 = first.2 ∧
      ChatHistoryManager.calls
        (chat_history_manager (WebApp.memory_manager second.2))
      = ChatHistoryManager.calls
          (chat_history_manager (WebApp.memory_manager first.2)).
Proof.
  simpl. unfold WebApp.get_relevant_memories.
  destruct (get_relevant_memories (WebApp.memory_manager app) query limit
              now_check now_store) as [res mm] eqn:Hfirst.
  simpl. split; [done|].
  assert (Hcd : ∃ cd, memory_cache mm !! cache_key query limit = Some cd ∧
                      memories cd = res).
  { unfold get_relevant_memories in Hfirst.
    destruct (memory_cache (WebApp.memory_manager app) !! cache_key query limit)
      as [cd|] eqn:Hlook.
    - case_decide.
      + injection Hfirst as <- <-. by exists cd.
      + pose proof (compute_memory_cache (WebApp.memory_manager app)
                      query limit now_store) as Hc.
        rewrite Hfirst in Hc. simpl in Hc. rewrite Hc.
        eexists. split; [apply lookup_insert_eq|done].
    - pose proof (compute_memory_cache (WebApp.memory_manager app)
                    query limit now_store) as Hc.
      rewrite Hfirst in Hc. simpl in Hc. rewrite Hc.
      eexists. split; [apply lookup_insert_eq|done]. }
  destruct Hcd as (cd & Hlook & Hres). exists cd. split_and!; [done..|].
  intros t2 t2' Hfresh.
  unfold get_relevant_memories. rewrite Hlook, decide_True by done.
  simpl. by rewrite Hres.
Qed.

End RetrieverFacts.

(** ** The retriever on examples *)

Section RetrieverExamples.
Import MemoryManager.
Existing Instance example_runtime.

Lemma small_limit_returns_nothing_witness :
  0 <= 1 <= 1 ∧
  (get_relevant_memories (init hiking_session) "hiking" 1 0 0).1 = [].
Proof.
  split; [lia|].
  destruct (small_limit_returns_nothing (init hiking_session) "hiking" 1 0 0)
    as [Hres _].
  - lia.
  - apply init_small_limits_empty.
  - exact Hres.
Defined.

(** C10 fails on the code for a negative limit.  With [limit = -1] the
    session source is cut to [memories[:-1]], all but the last match, and
    the ranked list to all but its last fragment: one fragment is
    returned. *)
Lemma small_limit_counterexample :
  -1 <= 1 ∧
  (get_relevant_memories (init hiking_session) "hiking" (-1) 0 0).1
  = ["[user] I love hiking"].
Proof. split; [lia|]. vm_compute. reflexivity. Qed.

Lemma relevant_memories_cached_witness :
  let first :=
    WebApp.get_relevant_memories (WebApp.init hiking_session) "hiking" 10 0 0 in
  let second := WebApp.get_relevant_memories first.2 "hiking" 10 100 100 in
  second.1 = first.1 ∧
  ChatHistoryManager.calls
    (chat_history_manager (WebApp.memory_manager second.2))
  = ChatHistoryManager.calls
      (chat_history_manager (WebApp.memory_manager first.2)).
Proof.
  destruct (relevant_memories_cached (WebApp.init hiking_session) "hiking" 10 0 0)
    as (_ & cd & Hlook & _ & Hsecond).
  destruct (Hsecond 100 100) as (Hres & _ & Hcalls).
  - vm_compute in Hlook. injection Hlook as <-. vm_compute. reflexivity.
  - split; [exact Hres|exact Hcalls].
Defined.

(** C8 fails on the code.  A call that computes a non-empty result stores
    nothing in either tier of the application's cache service. *)
Lemma relevant_memories_counterexample :
  let first :=
    WebApp.get_relevant_memories (WebApp.init hiking_session) "hiking" 10 0 0 in
  first.1 = ["[user] I love hiking"; "[assistant] hiking is fun";
             "[user] more hiking please"] ∧
  CacheService._memory_cache (WebApp.cache_service first.2) = [] ∧
  CacheService.db (WebApp.cache_service first.2) = ∅.
Proof. vm_compute. done. Qed.

End RetrieverExamples.

(** * Further properties *)

(** ** [delete] and [clear] *)

Section DeleteFacts.
Context `{Runtime}.
Import CacheService.
Implicit Types (self : CacheService.t) (key : string).

Lemma dict_del_absent {A} (key : string) (d : list (string * A)) :
  Py.dict_get key d = None → Py.dict_del key d = d.
Proof.
  intros Hget. apply dict_get_None in Hget. unfold Py.dict_del.
  rewrite (filter_ext_elem _ (λ _, True)).
  - clear. induction d as [|x l IH]; [done|]. by rewrite filter_cons_True, IH.
  - intros [k e] Hin. simpl. split; [done|]. intros _ ->.
    apply Hget. apply list_elem_of_fmap. by exists (key, e).
Qed.

Lemma delete_memory self key run :
  _memory_cache (CacheServiceRest.delete self key run).2
  = Py.dict_del key (_memory_cache self).
Proof.
  unfold CacheServiceRest.delete.
  destruct (Py.dict_get key (_memory_cache self)) eqn:Hget; destruct run;
    simpl; try done.
  all: symmetry; by apply dict_del_absent.
Qed.

Lemma delete_db self key run :
  db (CacheServiceRest.delete self key run).2
  = match run with
    | CacheServiceRest.Committed => base.delete key (db self)
    | _ => db self
    end.
Proof.
  unfold CacheServiceRest.delete.
  by destruct (Py.dict_get key (_memory_cache self)), run.
Qed.

Lemma delete_flag self key run :
  (CacheServiceRest.delete self key run).1
  = bool_decide (is_Some (Py.dict_get key (_memory_cache self)))
    || match run with
       | CacheServiceRest.RaisedBeforeCount => false
       | _ => bool_decide (is_Some (db self !! key))
       end.
Proof.
  unfold CacheServiceRest.delete.
  destruct (Py.dict_get key (_memory_cache self)) eqn:Hget, run; simpl;
    rewrite ?orb_false_r; try done.
  all: symmetry; apply bool_decide_eq_false_2; by intros [? ?].
Qed.

(** X1. After a [delete] whose database block ran to its end, the key is
    in neither tier, [get] returns nothing for it whenever it is called,
    and a second [delete] reports that nothing was there, however its own
    block ends. *)
Theorem delete_then_absent self key now io run :
  let after := (CacheServiceRest.delete self key CacheServiceRest.Committed).2 in
  Py.dict_get key (_memory_cache after) = None ∧
  db after !! key = None ∧
  (get after key now io).1 = None ∧
  (CacheServiceRest.delete after key run).1 = false.
Proof.
  intros after.
  assert (Hm : Py.dict_get key (_memory_cache after) = None).
  { subst after. rewrite delete_memory. apply dict_get_del_eq. }
  assert (Hd : db after !! key = None).
  { subst after. rewrite delete_db. apply lookup_delete_eq. }
  split_and!; [done|done| |].
  - unfold get, get_memory, get_persistent. rewrite Hm.
    destruct io; [|done]. by rewrite Hd.
  - rewrite delete_flag, Hm, Hd. by destruct run.
Qed.

(** X2. What the flag of [delete] tells.  However the database block
    ends, a [delete] that returns [False] has changed nothing in either
    tier.  A [True] does not mean that the key is gone: when
    [conn.commit()] raises after the statement has matched a row, the flag
    is already set and the row stays, so that the next [get] returns the
    value of a row that is still live. *)
Theorem delete_flag_meaning self key :
  (∀ run, (CacheServiceRest.delete self key run).1 = false →
          (CacheServiceRest.delete self key run).2 = self) ∧
  (∀ row v now,
     db self !! key = Some row →
     now - row_created_at row < row_ttl row →
     json_loads (row_value row) = Some v →
     let result :=
       CacheServiceRest.delete self key CacheServiceRest.RaisedAtCommit in
     result.1 = true ∧
     db result.2 = db self ∧
     (get result.2 key now true).1 = Some v).
Proof.
  split.
  - intros run Hflag. rewrite delete_flag in Hflag.
    apply orb_false_iff in Hflag as [Hmem Hrow].
    apply bool_decide_eq_false in Hmem.
    assert (Hget : Py.dict_get key (_memory_cache self) = None).
    { destruct (Py.dict_get key (_memory_cache self)); [|done].
      destruct Hmem. by eexists. }
    unfold CacheServiceRest.delete. rewrite Hget.
    destruct run; [|done|done].
    apply bool_decide_eq_false in Hrow.
    assert (Hlook : db self !! key = None).
    { destruct (db self !! key); [|done]. destruct Hrow. by eexists. }
    simpl. unfold with_db. rewrite (delete_id _ _ Hlook). by destruct self.
  - intros row v now Hrow Hlive Hparse result.
    assert (Hm : Py.dict_get key (_memory_cache result.2) = None).
    { subst result. rewrite delete_memory. apply dict_get_del_eq. }
    assert (Hd : db result.2 = db self).
    { subst result. by rewrite delete_db. }
    split_and!; [|done|].
    + subst result. rewrite delete_flag, Hrow.
      rewrite (bool_decide_eq_true_2 (is_Some (Some row))) by by eexists.
      apply orb_true_r.
    + unfold get, get_memory, get_persistent. rewrite Hm, Hd, Hrow. simpl.
      by rewrite decide_True, Hparse.
Qed.

(** X3. [delete] leaves every other key as it is, in both tiers, however
    its database block ends. *)
Theorem delete_other_keys self key run other :
  other ≠ key →
  let after := (CacheServiceRest.delete self key run).2 in
  Py.dict_get other (_memory_cache after)
  = Py.dict_get other (_memory_cache self) ∧
  db after !! other = db self !! other.
Proof.
  intros Hne after. subst after. rewrite delete_memory, delete_db. split.
  - by apply dict_get_del_ne.
  - destruct run; [|done|done]. by apply lookup_delete_ne.
Qed.

(** X4. [clear(memory_only=True)] empties the memory tier and keeps the
    persistent tier: a row that is still live is served by the next [get]
    and promoted. *)
Theorem clear_memory_only_keeps_rows self key row v now io :
  db self !! key = Some row →
  now - row_created_at row < row_ttl row →
  json_loads (row_value row) = Some v →
  let cleared := CacheServiceRest.clear self true io in
  _memory_cache cleared = [] ∧
  db cleared = db self ∧
  (get cleared key now true).1 = Some v ∧
  (_memory_cache (get cleared key now true).2).*1 = [key].
Proof.
  intros Hrow Hlive Hparse cleared. split_and!; [done|done| |].
  - unfold get, get_memory, get_persistent. simpl.
    by rewrite Hrow, decide_True, Hparse.
  - unfold get, get_memory, get_persistent. simpl.
    by rewrite Hrow, decide_True, Hparse.
Qed.

(** X5. After [clear()] whose database statement went through, both tiers
    are empty and every [get] returns nothing; when the statement fails
    only the memory tier is emptied. *)
Theorem clear_all_forgets self key now io :
  let cleared := CacheServiceRest.clear self false true in
  _memory_cache cleared = [] ∧
  db cleared = ∅ ∧
  (get cleared key now io).1 = None ∧
  _memory_cache (CacheServiceRest.clear self false false) = [] ∧
  db (CacheServiceRest.clear self false false) = db self.
Proof.
  simpl. split_and!; try done.
  unfold get, get_memory, get_persistent. simpl.
  destruct io; [|done]. by rewrite lookup_empty.
Qed.

(** X6. [get] leaves every other key as it is, in both tiers. *)
Theorem get_other_keys self key now io other :
  other ≠ key →
  let after := (get self key now io).2 in
  Py.dict_get other (_memory_cache after)
  = Py.dict_get other (_memory_cache self) ∧
  db after !! other = db self !! other.
Proof.
  intros Hne. simpl. unfold get, get_memory, get_persistent.
  repeat (case_match || case_decide); simplify_eq; simpl;
    rewrite ?dict_get_set_ne, ?dict_get_del_ne, ?lookup_insert_ne,
      ?lookup_delete_ne by done; done.
Qed.

(** X7. A promotion adds one entry to the memory tier whatever its
    capacity: [get] does not run the capacity sweep. *)
Theorem promotion_ignores_capacity self key now row v :
  Py.dict_get key (_memory_cache self) = None →
  db self !! key = Some row →
  now - row_created_at row < row_ttl row →
  json_loads (row_value row) = Some v →
  length (_memory_cache (get self key now true).2)
  = S (length (_memory_cache self)).
Proof.
  intros Hmem Hrow Hlive Hparse.
  unfold get, get_memory. rewrite Hmem.
  unfold get_persistent. rewrite Hrow, decide_True, Hparse by done. simpl.
  destruct (dict_set_split key
              {| CacheService.key := key; value := v; ttl := row_ttl row;
                 created_at := row_created_at row; access_count := 0;
                 last_accessed := now |} (_memory_cache self))
    as (l1 & l2 & -> & Hnone & _).
  destruct (Hnone Hmem) as [-> ->]. rewrite length_app. simpl. lia.
Qed.

End DeleteFacts.

(** ** The LLM response cache *)

Section LlmCacheFacts.
Context `{Runtime}.
Import CacheService.
Implicit Types (self : CacheService.t).

(** X8. A response stored by [cache_llm_response] is returned by
    [get_cached_llm_response] for the same input and prompt until its
    lifetime is over, whatever the capacity and the content of the memory
    tier: the write goes through to the persistent tier, which serves the
    response when the sweep has evicted it.  (Both database accesses
    succeed and the stored text parses back to the response.) *)
Theorem cached_llm_response_is_served
    self user_input system_prompt response ttl t0 t1 t2 :
  Py.dict_wf (_memory_cache self) →
  t2 - t0 < ttl →
  json_loads (Json.dumps false (JStr response)) = Some (JStr response) →
  (CacheServiceRest.get_cached_llm_response
     (CacheServiceRest.cache_llm_response self user_input system_prompt
        response ttl t0 t1 true)
     user_input system_prompt t2 true).1
  = Some (JStr response).
Proof.
  intros. unfold CacheServiceRest.get_cached_llm_response,
    CacheServiceRest.cache_llm_response.
  by apply persisted_set_then_get.
Qed.

(** X9. Clearing with [memory_only=True], as the handlers of "clear
    history" do, does not forget a cached LLM response: it is still served
    from the persistent tier. *)
Theorem cached_llm_response_survives_clear
    self user_input system_prompt response ttl t0 t1 t2 io :
  t2 - t0 < ttl →
  json_loads (Json.dumps false (JStr response)) = Some (JStr response) →
  (CacheServiceRest.get_cached_llm_response
     (CacheServiceRest.clear
        (CacheServiceRest.cache_llm_response self user_input system_prompt
           response ttl t0 t1 true)
        true io)
     user_input system_prompt t2 true).1
  = Some (JStr response).
Proof.
  intros Hlife Hparse.
  unfold CacheServiceRest.get_cached_llm_response,
    CacheServiceRest.cache_llm_response, CacheServiceRest.clear.
  match goal with
  | |- context [set ?a ?b ?c ?d ?e ?f ?g ?h] =>
      pose proof (set_db a b c d e f g h) as Hdb;
      generalize dependent (set a b c d e f g h)
  end.
  intros s1 Hdb. unfold get, get_memory, get_persistent. simpl.
  rewrite Hdb. simpl. rewrite lookup_insert_eq. simpl in Hparse |- *.
  by rewrite decide_True, Hparse.
Qed.

End LlmCacheFacts.

(** ** [export_cache] and [import_cache] *)

Section ExportFacts.
Import CacheService.
Implicit Types (self : CacheService.t).

Lemma dict_set_fresh {A} (k : string) (v : A) (d : list (string * A)) :
  k ∉ d.*1 → Py.dict_set k v d = d ++ [(k, v)].
Proof.
  induction d as [|[k' v'] d IH]; simpl; [done|].
  rewrite not_elem_of_cons. intros [Hne Hk].
  rewrite decide_False by done. by rewrite IH.
Qed.

Lemma dict_set_same {A} (k : string) (v : A) (d : list (string * A)) :
  Py.dict_get k d = Some v → Py.dict_set k v d = d.
Proof.
  induction d as [|[k' v'] d IH]; simpl; [done|].
  case_decide; intros; simplify_eq; [done|]. by rewrite IH.
Qed.

(** A loop of guarded dictionary writes over items with new, distinct
    keys appends the items that pass the guard. *)
Lemma foldl_dict_set_fresh {A B} (P : string * A → Prop)
    `{!∀ x, Decision (P x)} (g : string * A → B)
    (step : list (string * B) → string * A → list (string * B))
    (items : list (string * A)) (acc : list (string * B)) :
  (∀ d kv, step d kv = if decide (P kv) then Py.dict_set kv.1 (g kv) d else d) →
  NoDup (acc.*1 ++ items.*1) →
  foldl step acc items
  = acc ++ ((λ kv, (kv.1, g kv)) <$> filter P items).
Proof.
  intros Hstep. revert acc.
  induction items as [|[k a] items IH]; intros acc Hnd; simpl.
  - by rewrite app_nil_r.
  - rewrite Hstep, filter_cons. simpl.
    rewrite fmap_cons in Hnd. simpl in Hnd.
    assert (Hk : k ∉ acc.*1).
    { apply NoDup_app in Hnd as (_ & Hdis & _). intros Hin.
      apply (Hdis k Hin). by left. }
    case_decide.
    + rewrite IH.
      * rewrite dict_set_fresh by done. by rewrite <- app_assoc.
      * rewrite dict_set_fresh, fmap_app, <- app_assoc by done. exact Hnd.
    + apply IH. apply NoDup_app in Hnd as (Ha & Hdis & Hi).
      apply NoDup_cons in Hi as [_ Hi].
      apply NoDup_app. split_and!; [done| |done].
      intros x Hx Hin. apply (Hdis x Hx). by right.
Qed.

(** The exported object lists the entries in their order. *)
Lemma export_data_items self now :
  Py.dict_wf (_memory_cache self) →
  (CacheServiceRest.export_cache self now true).2
  = Some {| CacheServiceRest.file_memory_cache :=
              (λ kv, (kv.1, CacheServiceRest.export_item kv.2))
                <$> _memory_cache self;
            CacheServiceRest.export_time := now |}.
Proof.
  intros Hwf. unfold CacheServiceRest.export_cache. simpl. do 2 f_equal.
  rewrite (foldl_dict_set_fresh (λ _, True)
             (λ kv, CacheServiceRest.export_item kv.2)); [|done|done].
  simpl. f_equal. generalize (_memory_cache self). clear.
  induction l as [|x l IH]; [done|]. by rewrite filter_cons_True, IH.
Qed.

Lemma import_export_item k e :
  key e = k →
  CacheServiceRest.import_item k (CacheServiceRest.export_item e) = e.
Proof. intros <-. by destruct e. Qed.

(** X10. Round trip: importing with [merge=False] the file a cache
    exported leaves in the memory tier exactly the exported entries that
    are still live at import time, in their order and with their access
    data; the capacity is not enforced, and the [clear()] of this mode
    also empties the persistent tier of the importing cache. *)
Theorem export_import_round_trip self target now_export now io :
  Py.dict_wf (_memory_cache self) →
  keys_consistent (_memory_cache self) →
  let file := (CacheServiceRest.export_cache self now_export true).2 in
  let result := CacheServiceRest.import_cache target file false now io in
  result.1 = true ∧
  _memory_cache result.2 = survivors now (_memory_cache self) ∧
  db result.2 = if io then ∅ else db target.
Proof.
  intros Hwf Hkeys file result. subst file result.
  rewrite export_data_items by done.
  unfold CacheServiceRest.import_cache. simpl.
  split_and!; [done| |by destruct io].
  replace (_memory_cache
             (if io then with_db (with_memory target []) ∅
              else with_memory target [])) with (@nil (string * CacheEntry))
    by by destruct io.
  rewrite (foldl_dict_set_fresh
             (λ kv, now - CacheServiceRest.item_created_at kv.2
                    < CacheServiceRest.item_ttl kv.2)
             (λ kv, CacheServiceRest.import_item kv.1 kv.2)); [|done|].
  - simpl. unfold survivors. revert Hkeys.
    generalize (_memory_cache self). clear.
    induction l as [|[k e] l IH]; intros Hkeys; [done|].
    rewrite fmap_cons, !filter_cons. simpl.
    assert (Hl : keys_consistent l).
    { intros k' e' Hin. apply Hkeys. by right. }
    destruct (decide (live now e)) as [Hlive|Hdead].
    + rewrite (decide_True (P := live now (k, e).2)) by done.
      rewrite ?decide_True by exact Hlive.
      rewrite fmap_cons. simpl.
      rewrite import_export_item by (apply Hkeys; by left).
      by rewrite IH.
    + rewrite (decide_False (P := live now (k, e).2)) by done.
      rewrite ?decide_False by exact Hdead.
      by apply IH.
  - simpl. rewrite <- list_fmap_compose. exact Hwf.
Qed.

(** X11. Importing a cache's own export with [merge=True] changes
    nothing: entries that are still live are written back as they are and
    expired ones stay where they were. *)
Theorem import_own_export_is_identity self now_export now io :
  Py.dict_wf (_memory_cache self) →
  keys_consistent (_memory_cache self) →
  let file := (CacheServiceRest.export_cache self now_export true).2 in
  let result := CacheServiceRest.import_cache self file true now io in
  result.1 = true ∧
  _memory_cache result.2 = _memory_cache self ∧
  db result.2 = db self.
Proof.
  intros Hwf Hkeys file result. subst file result.
  rewrite export_data_items by done.
  unfold CacheServiceRest.import_cache. simpl.
  split_and!; [done| |done].
  assert (Hsub : ∀ items : list (string * CacheEntry),
            items ⊆ _memory_cache self →
            foldl (λ d kv,
                     if decide (now - CacheServiceRest.item_created_at kv.2
                                < CacheServiceRest.item_ttl kv.2)
                     then Py.dict_set kv.1
                            (CacheServiceRest.import_item kv.1 kv.2) d
                     else d)
              (_memory_cache self)
              ((λ kv, (kv.1, CacheServiceRest.export_item kv.2)) <$> items)
            = _memory_cache self).
  { induction items as [|[k e] items IH]; intros Hin; [done|].
    rewrite fmap_cons. simpl.
    assert ((k, e) ∈ _memory_cache self) as Hke by (apply Hin; by left).
    rewrite import_export_item by by apply Hkeys.
    rewrite dict_set_same by by apply dict_get_elem.
    case_decide; apply IH; intros x Hx; apply Hin; by right. }
  by apply Hsub.
Qed.

(** X12. What [import_cache] with [merge=True] does to a key, for a file
    that lists each key once: a live item of the file replaces the entry,
    an expired item is ignored, and a key the file does not list is left
    alone.  No entry is admitted that has run out at import time. *)
Theorem import_merge_lookup self import_data now io k :
  NoDup (CacheServiceRest.file_memory_cache import_data).*1 →
  let result :=
    CacheServiceRest.import_cache self (Some import_data) true now io in
  Py.dict_get k (_memory_cache result.2)
  = match Py.dict_get k (CacheServiceRest.file_memory_cache import_data) with
    | Some data =>
        if decide (now - CacheServiceRest.item_created_at data
                   < CacheServiceRest.item_ttl data)
        then Some (CacheServiceRest.import_item k data)
        else Py.dict_get k (_memory_cache self)
    | None => Py.dict_get k (_memory_cache self)
    end.
Proof.
  intros Hnd. simpl.
  generalize (_memory_cache self). revert Hnd.
  generalize (CacheServiceRest.file_memory_cache import_data).
  induction l as [|[k1 d1] items IH]; intros Hnd acc; [done|].
  rewrite fmap_cons in Hnd. apply NoDup_cons in Hnd as [Hk1 Hnd]. simpl in *.
  rewrite IH by done. destruct (decide (k1 = k)) as [->|Hk].
  - apply dict_get_None in Hk1. rewrite Hk1.
    case_decide; [by rewrite dict_get_set_eq|done].
  - destruct (Py.dict_get k items) as [d|];
      destruct (decide (now - CacheServiceRest.item_created_at d1
                        < CacheServiceRest.item_ttl d1));
      rewrite ?dict_get_set_ne by done; done.
Qed.

End ExportFacts.

(** ** The chat history manager *)

Section HistoryFacts.
Context `{Runtime}.
Import ChatHistoryManager.
Implicit Types (self : ChatHistoryManager.t).

Lemma get_history_files_loop_closed paths files limit :
  (length files < Z.to_nat (Z.max 1 limit))%nat →
  get_history_files_loop paths files limit
  = take (Z.to_nat (Z.max 1 limit)) (files ++ paths).
Proof.
  revert files. induction paths as [|p paths IH]; intros files Hlen; simpl.
  - rewrite app_nil_r. by rewrite take_ge by lia.
  - case_decide as Hlim.
    + rewrite length_app in Hlim. simpl in Hlim.
      replace (files ++ p :: paths) with ((files ++ [p]) ++ paths)
        by (by rewrite <- (assoc_L (++))).
      rewrite take_app_le by (rewrite length_app; simpl; lia).
      rewrite take_ge; [done|]. rewrite length_app. simpl. lia.
    + rewrite length_app in Hlim. simpl in Hlim.
      rewrite IH by (rewrite length_app; simpl; lia).
      by rewrite <- (assoc_L (++)).
Qed.

(** X13. [get_history_files(limit)] returns the first [limit] paths of the
    listing, newest first, and one path when [limit] is zero or negative:
    the loop tests the bound after it has appended. *)
Theorem get_history_files_closed_form self limit :
  (get_history_files self limit).1
  = take (Z.to_nat (Z.max 1 limit)) (history_dir self).*1.
Proof.
  unfold get_history_files. simpl.
  rewrite get_history_files_loop_closed by (simpl; lia). done.
Qed.

Lemma search_messages_closed keyword limit messages results :
  (length results < Z.to_nat (Z.max 1 limit))%nat →
  let all :=
    results ++ List.filter (ChatHistoryManagerRest.found keyword) messages in
  ChatHistoryManagerRest.search_messages keyword limit messages results
  = if decide (Z.to_nat (Z.max 1 limit) <= length all)%nat
    then (take (Z.to_nat (Z.max 1 limit)) all, true)
    else (all, false).
Proof.
  revert results. induction messages as [|msg rest IH]; intros results Hlen;
    simpl.
  - rewrite app_nil_r. by rewrite decide_False by lia.
  - destruct (ChatHistoryManagerRest.found keyword msg) eqn:Hf.
    + case_decide as Hlim.
      * rewrite length_app in Hlim. simpl in Hlim.
        rewrite decide_True by (rewrite length_app; simpl; lia).
        replace (results ++
                 msg :: List.filter (ChatHistoryManagerRest.found keyword) rest)
          with ((results ++ [msg]) ++
                List.filter (ChatHistoryManagerRest.found keyword) rest)
          by (by rewrite <- (assoc_L (++))).
        rewrite take_app_le by (rewrite length_app; simpl; lia).
        rewrite take_ge; [done|]. rewrite length_app. simpl. lia.
      * rewrite length_app in Hlim. simpl in Hlim.
        rewrite IH by (rewrite length_app; simpl; lia).
        simpl. by rewrite <- !(assoc_L (++)).
    + by apply IH.
Qed.

Lemma filter_concat {A} (f : A → bool) (ls : list (list A)) :
  List.filter f (concat ls) = concat (map (List.filter f) ls).
Proof.
  induction ls as [|l ls IH]; [done|]. simpl.
  by rewrite List.filter_app, IH.
Qed.

Lemma search_files_closed self keyword limit files results :
  (length results < Z.to_nat (Z.max 1 limit))%nat →
  ChatHistoryManagerRest.search_files self keyword limit files results
  = take (Z.to_nat (Z.max 1 limit))
      (results ++
       List.filter (ChatHistoryManagerRest.found keyword)
         (concat (map (λ file_path,
                         default [] (Py.dict_get file_path (history_dir self)))
                    files))).
Proof.
  revert results. induction files as [|f files IH]; intros results Hlen;
    simpl.
  - rewrite app_nil_r. by rewrite take_ge by lia.
  - rewrite search_messages_closed by done. simpl.
    rewrite List.filter_app, (assoc_L (++)).
    case_decide as Hlim.
    + symmetry. by apply take_app_le.
    + rewrite IH by lia. done.
Qed.

(** X14. [search_history] in closed form: the messages whose content
    contains the keyword, case ignored, taken from the session and then
    from the ten newest history files in reading order, cut to [limit], and
    to one message when [limit] is zero or negative. *)
Theorem search_history_closed_form self keyword limit :
  ChatHistoryManagerRest.search_history self keyword limit
  = take (Z.to_nat (Z.max 1 limit))
      (List.filter (ChatHistoryManagerRest.found keyword)
         (current_session self ++ history_messages self 10)).
Proof.
  unfold ChatHistoryManagerRest.search_history.
  rewrite search_messages_closed by (simpl; lia).
  rewrite get_history_files_closed_form.
  change (Z.to_nat (Z.max 1 10)) with 10%nat.
  rewrite List.filter_app. cbn [app]. case_decide as Hlim.
  - symmetry. by apply take_app_le.
  - by rewrite search_files_closed by lia.
Qed.

End HistoryFacts.

Section RecentFacts.
Context `{Runtime}.
Import ChatHistoryManager.
Implicit Types (self : ChatHistoryManager.t).

Lemma recent_loop_closed limit messages memories :
  (length memories < Z.to_nat (Z.max 1 limit))%nat →
  ChatHistoryManagerRest.recent_loop limit messages memories
  = take (Z.to_nat (Z.max 1 limit))
      (memories ++
       (MemoryManager.render <$>
        filter (λ msg, 50 < str_len (default EmptyString (content msg)))
          messages)).
Proof.
  revert memories.
  induction messages as [|msg rest IH]; intros memories Hlen; simpl.
  - rewrite app_nil_r. by rewrite take_ge by lia.
  - rewrite filter_cons. case_decide as Hlong.
    + rewrite fmap_cons.
      match goal with
      | |- _ = take _ (memories ++ ?x :: ?l) =>
          replace (memories ++ x :: l) with ((memories ++ [x]) ++ l)
            by (by rewrite <- (assoc_L (++)))
      end.
      case_decide as Hlim; rewrite length_app in Hlim; simpl in Hlim.
      * rewrite take_app_le by (rewrite length_app; simpl; lia).
        rewrite take_ge; [done|]. rewrite length_app. simpl. lia.
      * by rewrite IH by (rewrite length_app; simpl; lia).
    + by apply IH.
Qed.

(** X15. [get_recent_memories(limit)] for [limit >= 1] returns, oldest
    first, the last [limit] of the messages longer than fifty characters
    among the last [2 * limit] messages of the session.  With [limit = 0]
    the slice [current_session[-0:]] is the whole session and the loop
    leaves after its first append: the newest long message of the session
    is returned, not the empty list. *)
Theorem get_recent_memories_closed_form self :
  let long := λ msg, 50 < str_len (default EmptyString (content msg)) in
  (∀ limit, 1 <= limit →
     ChatHistoryManagerRest.get_recent_memories self limit
     = Py.slice_last limit
         (MemoryManager.render <$>
          filter long (Py.slice_last (2 * limit) (current_session self)))) ∧
  ChatHistoryManagerRest.get_recent_memories self 0
  = Py.slice_last 1
      (MemoryManager.render <$> filter long (current_session self)).
Proof.
  intros long.
  assert (Hgen : ∀ limit window,
            reverse (ChatHistoryManagerRest.recent_loop limit (reverse window) [])
            = drop (length (MemoryManager.render <$> filter long window)
                    - Z.to_nat (Z.max 1 limit))
                (MemoryManager.render <$> filter long window)).
  { intros limit window.
    rewrite recent_loop_closed by (simpl; lia). simpl.
    fold long. rewrite filter_reverse, fmap_reverse, take_reverse.
    by rewrite reverse_involutive. }
  split.
  - intros limit Hlimit. unfold ChatHistoryManagerRest.get_recent_memories.
    rewrite Hgen. unfold Py.slice_last, ChatHistoryManagerRest.slice_from.
    rewrite decide_False by lia.
    replace (Z.to_nat (- (- limit * 2))) with (Z.to_nat (2 * limit)) by lia.
    by replace (Z.to_nat (Z.max 1 limit)) with (Z.to_nat limit) by lia.
  - unfold ChatHistoryManagerRest.get_recent_memories. rewrite Hgen.
    unfold ChatHistoryManagerRest.slice_from. simpl. by rewrite drop_0.
Qed.

End RecentFacts.

(** ** The retriever's sources and ranking *)

Section SourceFacts.
Context `{Runtime}.
Import MemoryManager.
Implicit Types (self : MemoryManager.t).

Lemma contains_app_r w p s :
  Py.contains w s = true → Py.contains w (p +:+ s) = true.
Proof.
  intros Hs. induction p as [|c p IH]; [done|].
  change (String c p +:+ s) with (String c (p +:+ s)).
  cbn [Py.contains]. rewrite IH. apply orb_true_r.
Qed.

(** A message that passed the filter of a source has a positive score. *)
Lemma candidate_score_positive query msg :
  lower_after_label →
  msg_matches query msg = true → 0 < score query (render msg).
Proof.
  unfold msg_matches, mentions. intros Hlabel Hm.
  apply existsb_exists in Hm as (w & Hw & Hc).
  apply list_elem_of_In, list_elem_of_filter in Hw as [Hlen Hw].
  apply (score_positive query (render msg) w Hw Hlen).
  unfold render. rewrite Hlabel. by apply contains_app_r.
Qed.

Lemma elem_of_candidates query messages m :
  m ∈ candidates query messages
  ↔ ∃ msg, m = render msg ∧ msg ∈ messages ∧ msg_matches query msg = true.
Proof.
  unfold candidates. rewrite map_fmap, list_elem_of_fmap. split.
  - intros (msg & -> & Hin). exists msg. split; [done|].
    apply list_elem_of_In, filter_In in Hin as [Hin Hm].
    by apply list_elem_of_In in Hin.
  - intros (msg & -> & Hin & Hm). exists msg. split; [done|].
    apply list_elem_of_In, filter_In. split; [|done].
    by apply list_elem_of_In.
Qed.

Lemma candidates_app query l1 l2 :
  candidates query (l1 ++ l2) = candidates query l1 ++ candidates query l2.
Proof. unfold candidates. by rewrite List.filter_app, map_app. Qed.

Lemma rank_perm memories query :
  _rank_memories_by_relevance memories query
  ≡ₚ filter (λ m, 0 < score query m) memories.
Proof.
  unfold _rank_memories_by_relevance.
  rewrite (sorted_perm (λ x y : string * Z, y.2 <=? x.2)).
  induction memories as [|m memories IH]; [done|].
  simpl. rewrite !filter_cons. simpl. case_decide.
  - rewrite fmap_cons. simpl. by rewrite IH.
  - exact IH.
Qed.

(** X16. The ranking drops none of the fragments the sources offer: each
    of them mentions a query word, so its score is positive.  The ranked
    list is a rearrangement of the candidates.  The sources test the
    lower-cased content of a message and the ranking the lower-cased
    fragment made of it; that the one occurs in the other is what
    [lower_after_label] says of [str.lower]. *)
Theorem rank_keeps_candidates query messages :
  lower_after_label →
  _rank_memories_by_relevance (candidates query messages) query
  ≡ₚ candidates query messages ∧
  length (_rank_memories_by_relevance (candidates query messages) query)
  = length (candidates query messages).
Proof.
  intros Hlabel.
  assert (Hperm : _rank_memories_by_relevance (candidates query messages) query
                  ≡ₚ candidates query messages).
  { rewrite rank_perm.
    rewrite (filter_ext_elem _ (λ _, True)).
    - generalize (candidates query messages). clear.
      induction l as [|x l IH]; [done|]. by rewrite filter_cons_True, IH.
    - intros m (msg & -> & _ & Hm)%elem_of_candidates.
      split; [done|]. intros _. by apply candidate_score_positive. }
  split; [done|]. by rewrite Hperm.
Qed.

Lemma scan_messages_closed query limit messages memories :
  1 <= limit →
  (length memories < Z.to_nat limit)%nat →
  scan_messages query limit messages memories
  = take (Z.to_nat limit) (memories ++ candidates query messages).
Proof.
  intros Hlimit. revert memories.
  induction messages as [|msg rest IH]; intros memories Hlen; simpl.
  - unfold candidates. simpl. rewrite app_nil_r. by rewrite take_ge by lia.
  - unfold candidates. simpl. destruct (msg_matches query msg) eqn:Hm.
    + simpl. fold (candidates query rest).
      replace (memories ++ render msg :: candidates query rest)
        with ((memories ++ [render msg]) ++ candidates query rest)
        by (by rewrite <- (assoc_L (++))).
      case_decide as Hlim; rewrite length_app in Hlim; simpl in Hlim.
      * rewrite take_app_le by (rewrite length_app; simpl; lia).
        rewrite take_ge; [done|]. rewrite length_app. simpl. lia.
      * by rewrite IH by (rewrite length_app; simpl; lia).
    + by apply IH.
Qed.

Lemma scan_files_closed query limit files chm memories :
  1 <= limit →
  (length memories < Z.to_nat limit)%nat →
  (scan_files query limit files chm memories).1
  = take (Z.to_nat limit)
      (memories ++
       candidates query
         (concat (map (λ file_path,
                         default [] (Py.dict_get file_path
                                       (ChatHistoryManager.history_dir chm)))
                    files))).
Proof.
  intros Hlimit. revert chm memories.
  induction files as [|f files IH]; intros chm memories Hlen; simpl.
  - unfold candidates. simpl. rewrite app_nil_r. by rewrite take_ge by lia.
  - rewrite scan_messages_closed by done.
    rewrite candidates_app, (assoc_L (++)).
    case_decide as Hlim.
    + simpl. rewrite length_take in Hlim.
      symmetry. apply take_app_le. lia.
    + rewrite length_take in Hlim. rewrite IH.
      * simpl. by rewrite (take_ge (memories ++ _)) by lia.
      * rewrite length_take. lia.
Qed.

(** X17. Both sources in closed form, for a limit that is not negative:
    the session source offers the first [limit] candidates among the last
    fifty messages of the session, the history source the first [limit]
    candidates among the messages of the ten newest files, in reading
    order.  The [break]s of the history loops change nothing but the work
    done. *)
Theorem sources_closed_form self query limit :
  0 <= limit →
  (_extract_current_session_memories self query limit).1
  = take (Z.to_nat limit)
      (candidates query (session_window (chat_history_manager self))) ∧
  (_extract_historical_memories self query limit).1
  = take (Z.to_nat limit)
      (candidates query (history_messages (chat_history_manager self) 10)).
Proof.
  intros Hlimit. split.
  - unfold _extract_current_session_memories. simpl.
    unfold Py.slice_to. destruct (0 <=? limit) eqn:Hle; [done|].
    apply Z.leb_gt in Hle. lia.
  - unfold _extract_historical_memories.
    pose proof (get_history_files_closed_form (chat_history_manager self) 10)
      as Hfiles.
    change (Z.to_nat (Z.max 1 10)) with 10%nat in Hfiles.
    destruct (ChatHistoryManager.get_history_files
                (chat_history_manager self) 10) as [files chm] eqn:Hget.
    simpl in Hfiles. subst files.
    assert (Hdir : ChatHistoryManager.history_dir chm
                   = ChatHistoryManager.history_dir (chat_history_manager self)).
    { unfold ChatHistoryManager.get_history_files in Hget.
      by injection Hget as _ <-. }
    destruct (decide (limit = 0)) as [->|Hne].
    + destruct (scan_files _ _ _ _ _). done.
    + pose proof (scan_files_closed query limit
                    (take 10 (ChatHistoryManager.history_dir
                                (chat_history_manager self)).*1)
                    chm [] ltac:(lia) ltac:(simpl; lia)) as Hscan.
      destruct (scan_files _ _ _ _ _) as [memories chm']. simpl in *.
      subst memories. rewrite Hdir. unfold history_messages.
      unfold Py.slice_to. destruct (0 <=? limit) eqn:Hle;
        [|apply Z.leb_gt in Hle; lia].
      by rewrite take_take, Nat.min_id.
Qed.

End SourceFacts.

(** ** The retriever's result and its cache, continued *)

Section ResultFacts.
Context `{Runtime}.
Import MemoryManager.
Implicit Types (self : MemoryManager.t).

(** A computed result is a function of the chat history alone. *)
Lemma compute_result_history self self' query limit now now' :
  chat_history_manager self = chat_history_manager self' →
  (compute_relevant_memories self query limit now).1
  = (compute_relevant_memories self' query limit now').1.
Proof.
  intros Heq. unfold compute_relevant_memories,
    _extract_current_session_memories, _extract_historical_memories.
  rewrite Heq. simpl.
  by destruct (scan_files _ _ _ _ _).
Qed.

Lemma compute_cache_expiry self query limit now :
  cache_expiry (compute_relevant_memories self query limit now).2
  = cache_expiry self.
Proof.
  unfold compute_relevant_memories,
    _extract_current_session_memories, _extract_historical_memories.
  simpl. by destruct (scan_files _ _ _ _ _).
Qed.

Lemma compute_closed_form self query limit now :
  0 <= limit →
  (compute_relevant_memories self query limit now).1
  = take (Z.to_nat limit)
      (_rank_memories_by_relevance
         (take (Z.to_nat (limit `div` 2))
            (candidates query (session_window (chat_history_manager self)))
          ++ take (Z.to_nat (limit `div` 2))
               (candidates query
                  (history_messages (chat_history_manager self) 10)))
         query).
Proof.
  intros Hlimit.
  assert (Hhalf : 0 <= limit `div` 2) by (apply Z.div_pos; lia).
  unfold compute_relevant_memories.
  destruct (sources_closed_form self query (limit `div` 2) Hhalf) as [Hcur _].
  destruct (_extract_current_session_memories self query (limit `div` 2))
    as [cur self1] eqn:Hc.
  assert (Hchm : chat_history_manager self1
                 = ChatHistoryManager.called (chat_history_manager self)).
  { unfold _extract_current_session_memories in Hc. simpl in Hc.
    by injection Hc as _ <-. }
  destruct (sources_closed_form self1 query (limit `div` 2) Hhalf)
    as [_ Hhist].
  destruct (_extract_historical_memories self1 query (limit `div` 2))
    as [hist self2].
  simpl in *. subst cur hist. rewrite Hchm.
  unfold Py.slice_to. destruct (0 <=? limit) eqn:Hle;
    [done|apply Z.leb_gt in Hle; lia].
Qed.

(** X18. A call that finds no fresh entry in the cache, with a limit that
    is not negative, returns the first [limit] of the ranked candidates,
    of which each source has contributed its first [limit // 2]; every
    fragment returned is a rendered message of the session window or of the
    ten newest history files that mentions a query word. *)
Theorem miss_result_closed_form self query limit now_check now_store :
  0 <= limit →
  (∀ cache_data,
     memory_cache self !! cache_key query limit = Some cache_data →
     ¬ (now_check - timestamp cache_data < cache_expiry self)) →
  let session :=
    candidates query (session_window (chat_history_manager self)) in
  let history :=
    candidates query (history_messages (chat_history_manager self) 10) in
  let result :=
    (get_relevant_memories self query limit now_check now_store).1 in
  result
  = take (Z.to_nat limit)
      (_rank_memories_by_relevance
         (take (Z.to_nat (limit `div` 2)) session
          ++ take (Z.to_nat (limit `div` 2)) history) query) ∧
  ∀ m, m ∈ result → m ∈ session ∨ m ∈ history.
Proof.
  intros Hlimit Hmiss session history result.
  assert (Hres : result
            = (compute_relevant_memories self query limit now_store).1).
  { subst result. unfold get_relevant_memories.
    destruct (memory_cache self !! cache_key query limit) as [cd|] eqn:Hlook;
      [|done].
    by rewrite decide_False by by apply Hmiss. }
  rewrite Hres, compute_closed_form by done. split; [done|].
  intros m Hm. apply subseteq_take in Hm.
  apply elem_of_rank in Hm as [Hm _].
  apply elem_of_app in Hm as [Hm|Hm]; apply subseteq_take in Hm; auto.
Qed.




(** X20. A cached result is served for [cache_expiry] seconds whatever
    happens to the chat history in between: after a call that computed its
    result, a call for the same query and limit returns that result even
    when the session and the history files have changed. *)
Theorem cached_result_ignores_history
    self query limit t1 t1' chm' t2 t2' :
  memory_cache self !! cache_key query limit = None →
  t2 - t1' < cache_expiry self →
  let first := get_relevant_memories self query limit t1 t1' in
  (get_relevant_memories (with_history first.2 chm') query limit t2 t2').1
  = first.1.
Proof.
  intros Hmiss Hfresh first. subst first.
  unfold get_relevant_memories at 2 3. rewrite Hmiss.
  unfold get_relevant_memories. simpl.
  rewrite compute_memory_cache, lookup_insert_eq. simpl.
  by rewrite compute_cache_expiry, decide_True.
Qed.

(** X21. After [clear_cache] a call answers as a new manager over the same
    chat history would, whatever had been cached. *)
Theorem clear_cache_recomputes self query limit t t' t0 t0' :
  (get_relevant_memories (MemoryManagerRest.clear_cache self)
     query limit t t').1
  = (get_relevant_memories (init (chat_history_manager self))
       query limit t0 t0').1.
Proof.
  unfold get_relevant_memories. simpl. rewrite !lookup_empty.
  by apply compute_result_history.
Qed.

End ResultFacts.

(** ** The hypotheses above are invariants *)

Section InvariantFacts.
Context `{Runtime}.
Import CacheService.

Lemma elem_of_dict_set {A} (k : string) (v : A) (d : list (string * A)) x :
  x ∈ Py.dict_set k v d → x = (k, v) ∨ x ∈ d.
Proof.
  induction d as [|[k' v'] d IH]; simpl.
  - rewrite list_elem_of_singleton. auto.
  - case_decide; rewrite !elem_of_cons; naive_solver.
Qed.

Lemma init_keys_consistent n : keys_consistent (_memory_cache (init n)).
Proof. intros k e Hin. by apply elem_of_nil in Hin. Qed.

Lemma set_keys_consistent self key value ttl persist t0 t1 io :
  Py.dict_wf (_memory_cache self) →
  keys_consistent (_memory_cache self) →
  keys_consistent (_memory_cache (set self key value ttl persist t0 t1 io)).
Proof.
  intros Hwf Hkeys k e Hin.
  eapply sublist_subseteq in Hin; [|by apply set_memory_sublist].
  apply elem_of_dict_set in Hin as [[= -> ->]|Hin]; [done|by apply Hkeys].
Qed.

Lemma get_keys_consistent self key now io :
  keys_consistent (_memory_cache self) →
  keys_consistent (_memory_cache (get self key now io).2).
Proof.
  intros Hkeys.
  assert (Hdel : keys_consistent (Py.dict_del key (_memory_cache self))).
  { intros k e [_ Hin]%list_elem_of_filter. by apply Hkeys. }
  assert (Hset : ∀ d v, keys_consistent d → CacheService.key v = key →
                        keys_consistent (Py.dict_set key v d)).
  { intros d v Hd Hv k e [[= -> ->]|Hin]%elem_of_dict_set; [done|].
    by apply Hd. }
  unfold get, get_memory, get_persistent.
  destruct (Py.dict_get key (_memory_cache self)) as [entry|] eqn:Hget.
  - case_decide.
    + simpl. apply Hset; [done|]. simpl.
      by apply Hkeys, dict_get_Some_elem.
    + repeat (case_match || case_decide); simplify_eq; simpl; auto.
  - repeat (case_match || case_decide); simplify_eq; simpl; auto.
Qed.

Lemma import_loop_invariant now items d :
  Py.dict_wf d → keys_consistent d →
  let d' :=
    foldl (λ d kv,
             if decide (now - CacheServiceRest.item_created_at kv.2
                        < CacheServiceRest.item_ttl kv.2)
             then Py.dict_set kv.1 (CacheServiceRest.import_item kv.1 kv.2) d
             else d) d items in
  Py.dict_wf d' ∧ keys_consistent d'.
Proof.
  revert d. induction items as [|[k data] items IH]; intros d Hwf Hkeys; simpl.
  - done.
  - case_decide; [|by apply IH].
    apply IH; [by apply dict_set_wf|].
    intros k' e [[= -> ->]|Hin]%elem_of_dict_set; [done|by apply Hkeys].
Qed.

(** X22.  The memory tier is a dictionary whose entries record their own
    key in every state the service reaches: the constructor establishes
    it, and [set], [get], [delete], [clear] and [import_cache] keep it,
    whatever the clock readings and whether or not the database statements
    succeed. *)
Theorem memory_invariant_preserved :
  (∀ n, memory_invariant (init n))
  ∧ ∀ self, memory_invariant self →
      (∀ key value ttl persist t0 t1 io,
         memory_invariant (set self key value ttl persist t0 t1 io))
      ∧ (∀ key now io, memory_invariant (get self key now io).2)
      ∧ (∀ key run,
           memory_invariant (CacheServiceRest.delete self key run).2)
      ∧ (∀ memory_only io,
           memory_invariant (CacheServiceRest.clear self memory_only io))
      ∧ (∀ file merge now io,
           memory_invariant
             (CacheServiceRest.import_cache self file merge now io).2).
Proof.
  split.
  { intros n. split; [apply init_wf|apply init_keys_consistent]. }
  intros self [Hwf Hkeys].
  assert (Hclear : ∀ memory_only io,
            memory_invariant (CacheServiceRest.clear self memory_only io)).
  { intros memory_only io. unfold CacheServiceRest.clear.
    assert (memory_invariant (with_memory self [])) as Hempty.
    { split; [constructor|]. intros k e Hin. by apply elem_of_nil in Hin. }
    destruct memory_only; [done|]. by destruct io. }
  split; [|split; [|split; [|split]]].
  - intros. split; [by apply set_wf|by apply set_keys_consistent].
  - intros. split; [by apply get_wf|by apply get_keys_consistent].
  - intros key run.
    assert (memory_invariant
              (with_memory self (Py.dict_del key (_memory_cache self))))
      as Hdel.
    { split; simpl; [by apply filter_wf|].
      intros k e [_ Hin]%list_elem_of_filter. by apply Hkeys. }
    unfold CacheServiceRest.delete.
    destruct (Py.dict_get key (_memory_cache self)); by destruct run.
  - exact Hclear.
  - intros [file|] merge now io; [|done].
    unfold CacheServiceRest.import_cache.
    set (start := if merge then self
                  else CacheServiceRest.clear self false io).
    assert (memory_invariant start) as [Hwf' Hkeys'].
    { subst start. destruct merge; [done|apply Hclear]. }
    split; simpl; by apply import_loop_invariant.
Qed.


End InvariantFacts.

(** ** The further properties on examples *)

Section FurtherExamples.
Import CacheService.
Existing Instance example_runtime.

Lemma crowded_keys_consistent : keys_consistent (_memory_cache crowded).
Proof.
  intros k e. unfold crowded, example_entry. simpl. intros Hin.
  repeat (rewrite elem_of_cons in Hin; destruct Hin as [[= -> ->]|Hin];
          [done|]).
  by apply elem_of_nil in Hin.
Qed.

Lemma delete_flag_meaning_witness :
  (get (CacheServiceRest.delete evicted "k" CacheServiceRest.RaisedAtCommit).2
     "k" 50 true).1
  = Some (JStr "hello").
Proof.
  destruct (delete_flag_meaning evicted "k") as [_ Hkept].
  destruct (Hkept {| row_value := Json.dumps false (JStr "hello");
                     row_ttl := 100; row_created_at := 0;
                     row_access_count := 0; row_last_accessed := 0 |}
              (JStr "hello") 50) as (_ & _ & Hget).
  - reflexivity.
  - simpl. lia.
  - reflexivity.
  - exact Hget.
Defined.

Lemma delete_other_keys_witness :
  Py.dict_get "b"
    (_memory_cache
       (CacheServiceRest.delete crowded "a" CacheServiceRest.Committed).2)
  = Py.dict_get "b" (_memory_cache crowded).
Proof.
  destruct (delete_other_keys crowded "a" CacheServiceRest.Committed "b")
    as [Hm _].
  - discriminate.
  - exact Hm.
Defined.

Lemma clear_memory_only_keeps_rows_witness :
  (get (CacheServiceRest.clear evicted true true) "k" 50 true).1
  = Some (JStr "hello").
Proof.
  destruct (clear_memory_only_keeps_rows evicted "k"
              {| row_value := Json.dumps false (JStr "hello"); row_ttl := 100;
                 row_created_at := 0; row_access_count := 0;
                 row_last_accessed := 0 |} (JStr "hello") 50 true)
    as (_ & _ & Hget & _).
  - reflexivity.
  - simpl. lia.
  - reflexivity.
  - exact Hget.
Defined.

Lemma get_other_keys_witness :
  Py.dict_get "a" (_memory_cache (get crowded "c" 6 true).2)
  = Py.dict_get "a" (_memory_cache crowded).
Proof.
  destruct (get_other_keys crowded "c" 6 true "a") as [Hm _].
  - discriminate.
  - exact Hm.
Defined.

Lemma promotion_ignores_capacity_witness :
  let full :=
    {| _memory_cache := _memory_cache crowded;
       max_memory_entries := 2;
       db := db evicted |} in
  length (_memory_cache (get full "k" 50 true).2) = 4%nat.
Proof.
  apply (promotion_ignores_capacity
           {| _memory_cache := _memory_cache crowded;
              max_memory_entries := 2;
              db := db evicted |} "k" 50
           {| row_value := Json.dumps false (JStr "hello"); row_ttl := 100;
              row_created_at := 0; row_access_count := 0;
              row_last_accessed := 0 |} (JStr "hello")).
  - reflexivity.
  - reflexivity.
  - simpl. lia.
  - reflexivity.
Defined.

Lemma cached_llm_response_is_served_witness :
  (CacheServiceRest.get_cached_llm_response
     (CacheServiceRest.cache_llm_response (init 0) "hi" "be kind" "hello"
        60 0 0 true)
     "hi" "be kind" 5 true).1
  = Some (JStr "hello").
Proof.
  apply (cached_llm_response_is_served (init 0) "hi" "be kind" "hello"
           60 0 0 5).
  - apply init_wf.
  - lia.
  - reflexivity.
Defined.

Lemma cached_llm_response_survives_clear_witness :
  (CacheServiceRest.get_cached_llm_response
     (CacheServiceRest.clear
        (CacheServiceRest.cache_llm_response (init 1000) "hi" "be kind"
           "hello" 60 0 0 true)
        true true)
     "hi" "be kind" 5 true).1
  = Some (JStr "hello").
Proof.
  apply (cached_llm_response_survives_clear (init 1000) "hi" "be kind"
           "hello" 60 0 0 5 true).
  - lia.
  - reflexivity.
Defined.

Lemma export_import_round_trip_witness :
  _memory_cache
    (CacheServiceRest.import_cache (init 1000)
       (CacheServiceRest.export_cache crowded 9 true).2 false 6 true).2
  = survivors 6 (_memory_cache crowded).
Proof.
  destruct (export_import_round_trip crowded (init 1000) 9 6 true)
    as (_ & Hm & _).
  - exact crowded_wf.
  - exact crowded_keys_consistent.
  - exact Hm.
Defined.

Lemma import_own_export_is_identity_witness :
  _memory_cache
    (CacheServiceRest.import_cache crowded
       (CacheServiceRest.export_cache crowded 9 true).2 true 6 true).2
  = _memory_cache crowded.
Proof.
  destruct (import_own_export_is_identity crowded 9 6 true) as (_ & Hm & _).
  - exact crowded_wf.
  - exact crowded_keys_consistent.
  - exact Hm.
Defined.

Lemma import_merge_lookup_witness :
  Py.dict_get "z"
    (_memory_cache
       (CacheServiceRest.import_cache crowded (Some example_file) true 50 true).2)
  = None.
Proof.
  rewrite (import_merge_lookup crowded example_file 50 true "z").
  - reflexivity.
  - by apply (bool_decide_unpack _).
Defined.

Lemma get_recent_memories_closed_form_witness :
  ChatHistoryManagerRest.get_recent_memories long_session 2
  = ["[assistant] did you at least see the view from the summit when the clouds parted";
     "[unknown] the summit was clear for one hour of our hiking tour and we had lunch"].
Proof.
  destruct (get_recent_memories_closed_form long_session) as [Hpos _].
  rewrite (Hpos 2) by lia. reflexivity.
Defined.

Lemma sources_closed_form_witness :
  (MemoryManager._extract_current_session_memories
     (MemoryManager.init long_session) "hiking" 3).1
  = ["[user] we went hiking in the mountains last summer and it rained all week";
     "[assistant] that sounds like a wet hiking trip";
     "[user] my boots were soaked through by the second day of the hiking tour"]
  ∧ (MemoryManager._extract_historical_memories
       (MemoryManager.init long_session) "hiking" 3).1
    = ["[user] Hiking in spring"; "[user] hiking in autumn";
       "[user] a hiking map"].
Proof.
  destruct (sources_closed_form (MemoryManager.init long_session) "hiking" 3)
    as [Hsession Hhistory].
  - lia.
  - rewrite Hsession, Hhistory. split; reflexivity.
Defined.

Lemma example_lower_after_label : lower_after_label.
Proof.
  intros label text.
  assert (Hrest : AsciiStr.lower (label +:+ "] " +:+ text)
                  = AsciiStr.lower (label +:+ "] ") +:+ AsciiStr.lower text).
  { induction label as [|c label IH]; [done|].
    change (String c label +:+ ?x) with (String c (label +:+ x)).
    cbn [AsciiStr.lower]. rewrite IH. done. }
  change (AsciiStr.lower (String "[" (label +:+ "] " +:+ text))
          = AsciiStr.lower (String "[" (label +:+ "] "))
            +:+ AsciiStr.lower text).
  cbn [AsciiStr.lower]. by rewrite Hrest.
Qed.

Lemma rank_keeps_candidates_witness :
  length
    (MemoryManager._rank_memories_by_relevance
       (candidates "hiking" (ChatHistoryManager.current_session long_session))
       "hiking")
  = 4%nat.
Proof.
  destruct (rank_keeps_candidates "hiking"
              (ChatHistoryManager.current_session long_session)
              example_lower_after_label) as [_ Hlen].
  rewrite Hlen. reflexivity.
Defined.

Lemma miss_result_closed_form_witness :
  (MemoryManager.get_relevant_memories
     (MemoryManager.init later_session) "hiking" 5 0 0).1
  = take 5
      (MemoryManager._rank_memories_by_relevance
         (take 2 (candidates "hiking" (session_window later_session))
          ++ take 2 (candidates "hiking" (history_messages later_session 10)))
         "hiking").
Proof.
  destruct (miss_result_closed_form (MemoryManager.init later_session)
              "hiking" 5 0 0) as [Hres _].
  - lia.
  - intros cd Hlook. simpl in Hlook. by rewrite lookup_empty in Hlook.
  - exact Hres.
Defined.


Lemma cached_result_ignores_history_witness :
  let first :=
    MemoryManager.get_relevant_memories
      (MemoryManager.init hiking_session) "hiking" 10 0 0 in
  (MemoryManager.get_relevant_memories
     (MemoryManager.with_history first.2 later_session) "hiking" 10 3599 3599).1
  = first.1.
Proof.
  apply (cached_result_ignores_history (MemoryManager.init hiking_session)
           "hiking" 10 0 0 later_session 3599 3599).
  - reflexivity.
  - simpl. lia.
Defined.

Lemma memory_invariant_preserved_witness :
  memory_invariant
    (CacheServiceRest.delete crowded "a" CacheServiceRest.Committed).2.
Proof.
  destruct memory_invariant_preserved as [_ Hstep].
  destruct (Hstep crowded) as (_ & _ & Hdel & _).
  - split; [exact crowded_wf|exact crowded_keys_consistent].
  - apply Hdel.
Defined.

End FurtherExamples.
